(** * RGI MRP system: the code normaliser, the formula transforms and the
      FIFO allocation engine of [app.py], embedded in Rocq.

    Conventions of the embedding.

    - A Python [str] is a Rocq [string]; one [ascii] stands for one
      character with code point 0..255.  On such characters
      [str.isdigit] and the white space removed by [str.strip] are
      modelled exactly.  The two status labels carry a glyph outside that
      range and appear as the bytes the source file holds for them.
    - A Python [float] holding a quantity is an exact rational [Q]:
      [round(x, n)] is rounding to [n] decimals with ties to even,
      [a // b] is the floor of the exact quotient and raises on a zero
      divisor.  Binary rounding error, infinities, NaN quantities and the
      sign of a zero are outside the model.  Computed rationals are kept
      in lowest terms ([Qred]).
    - A [dict] is a [gmap]; a DataFrame is the list of its rows.
    - Code that can raise runs in the [option] monad: [None] is an
      exception escaping the run. *)

From Stdlib Require Import QArith Qround Qabs ZArith Lia Lqa Bool.
From Stdlib Require Import Strings.String Strings.Ascii Numbers.DecimalString.
From Stdlib Require OrderedTypeEx Sorting.Sorted.
From stdpp Require Import gmap strings list fin_maps.

Local Open Scope string_scope.
Local Open Scope Z_scope.

(** ** Characters and the string methods the normaliser calls *)

(** [c.isspace()] for a character below 256: TAB..CR, FS..US, the blank,
    NEL and the no-break space. *)
Definition isspace (c : ascii) : bool :=
  let n := N_of_ascii c in
  ((9 <=? n) && (n <=? 13) || (28 <=? n) && (n <=? 32)
   || (n =? 133) || (n =? 160))%N.

(** [c.isdigit()] for a character below 256: 0..9 and the superscripts
    two, three and one. *)
Definition isdigit_char (c : ascii) : bool :=
  let n := N_of_ascii c in
  ((48 <=? n) && (n <=? 57) || (n =? 178) || (n =? 179) || (n =? 185))%N.

Fixpoint all_digits (s : string) : bool :=
  match s with
  | EmptyString => true
  | String c s' => isdigit_char c && all_digits s'
  end.

(** [s.isdigit()]: every character is a digit and there is at least one. *)
Definition isdigit (s : string) : bool :=
  match s with
  | EmptyString => false
  | _ => all_digits s
  end.

Fixpoint lstrip (s : string) : string :=
  match s with
  | EmptyString => EmptyString
  | String c s' => if isspace c then lstrip s' else s
  end.

Fixpoint rstrip (s : string) : string :=
  match s with
  | EmptyString => EmptyString
  | String c s' =>
      match rstrip s' with
      | EmptyString => if isspace c then EmptyString else String c EmptyString
      | r => String c r
      end
  end.

(** [s.strip()] *)
Definition strip (s : string) : string := rstrip (lstrip s).

Fixpoint fill (n : nat) (c : ascii) : string :=
  match n with
  | O => EmptyString
  | S n' => String c (fill n' c)
  end.

(** [s.zfill(width)]: zeros go after a leading sign. *)
Definition zfill (width : nat) (s : string) : string :=
  let pad := fill (width - String.length s) "0" in
  match s with
  | String c s' =>
      if (Ascii.eqb c "+" || Ascii.eqb c "-")%bool
      then String c (pad ++ s')
      else pad ++ s
  | EmptyString => pad
  end.

(** [s.ljust(width, c)] *)
Definition ljust (width : nat) (c : ascii) (s : string) : string :=
  s ++ fill (width - String.length s) c.

(** [s[:n]] *)
Fixpoint prefix (n : nat) (s : string) : string :=
  match n, s with
  | S n', String c s' => String c (prefix n' s')
  | _, _ => EmptyString
  end.

(** ** preserve_8char_code (app.py, lines 82-105) *)

(** A table cell holding a code: a missing value ([pd.isna]) or text. *)
Inductive cell : Type :=
| NaN : cell
| Str : string -> cell.

Definition preserve_8char_code (code : cell) : string :=
  match code with
  | NaN => ""
  | Str code_str =>
      let code_str := strip code_str in
      if isdigit code_str then zfill 8 code_str
      else if (String.length code_str <? 8)%nat then ljust 8 "0" code_str
      else if (8 <? String.length code_str)%nat then prefix 8 code_str
      else code_str
  end.

(** The normaliser on text. *)
Definition norm (s : string) : string := preserve_8char_code (Str s).

(** Last character is white space. *)
Fixpoint ends_ws (s : string) : bool :=
  match s with
  | EmptyString => false
  | String c EmptyString => isspace c
  | String _ s' => ends_ws s'
  end.

Definition starts_ws (s : string) : bool :=
  match s with
  | String c _ => isspace c
  | EmptyString => false
  end.

(** ** Numbers *)

Local Open Scope Q_scope.

(** Nearest integer, ties to the even one. *)
Definition round_half_even (x : Q) : Z :=
  let f := Qfloor x in
  match Qcompare (x - inject_Z f)%Q (1 # 2)%Q with
  | Lt => f
  | Gt => (f + 1)%Z
  | Eq => if Z.even f then f else (f + 1)%Z
  end.

Definition pow10 (n : nat) : Z := (10 ^ Z.of_nat n)%Z.

(** [round(x, ndigits)] on floats, [ndigits >= 0]. *)
Definition py_round (x : Q) (ndigits : nat) : Q :=
  Qred (inject_Z (round_half_even (x * inject_Z (pow10 ndigits)))
        / inject_Z (pow10 ndigits)).

(** [int(a // b)]: raises ZeroDivisionError when [b] is zero. *)
Definition py_floordiv (a b : Q) : option Z :=
  if Qeq_bool b 0 then None else Some (Qfloor (a / b)).

(** [min(l)]: raises ValueError on the empty list. *)
Definition py_min (l : list Z) : option Z :=
  match l with
  | [] => None
  | x :: l' => Some (fold_left Z.min l' x)
  end.

(** [a <= b], [a < b] on floats. *)
Definition Qleb (a b : Q) : bool := Qle_bool a b.
Definition Qltb (a b : Q) : bool := negb (Qle_bool b a).

(** ** Formatting *)

Definition str_of_Z (z : Z) : string := NilZero.string_of_int (Z.to_int z).

(** Digits of a natural number in groups of three, for the [,] option. *)
Fixpoint group3_aux (fuel : nat) (n : Z) : string :=
  match fuel with
  | O => str_of_Z n
  | S fuel' =>
      if (n <? 1000)%Z then str_of_Z n
      else group3_aux fuel' (n / 1000)
           ++ "," ++ zfill 3 (str_of_Z (n mod 1000))
  end.

Definition group3 (n : Z) : string := group3_aux (Z.to_nat (Z.log2 n)) n.

(** [f"{x:.{ndigits}f}"], and with [comma] set [f"{x:,.{ndigits}f}"]. *)
Definition fmt_fixed (comma : bool) (ndigits : nat) (x : Q) : string :=
  let n := Z.abs (round_half_even (x * inject_Z (pow10 ndigits))) in
  let ip := (n / pow10 ndigits)%Z in
  let fp := (n mod pow10 ndigits)%Z in
  ((if Qltb x 0 then "-" else "")
   ++ (if comma then group3 ip else str_of_Z ip)
   ++ match ndigits with
      | O => ""
      | _ => "." ++ zfill ndigits (str_of_Z fp)
      end)%string.

(** ** Tables *)

(** A row of [fg_formulas] / [modified_fg_formulas]. *)
Record formula_row : Type := {
  fg_code : string;
  rm_code : string;
  quantity : Q
}.

(** A row of [rm_stock]. *)
Record stock_row : Type := {
  stock_rm_code : string;
  stock_quantity : Q
}.

(** A row of [rm_replacement_rules]. *)
Record replacement_rule : Type := {
  old_rm_code : string;
  new_rm_code : string
}.

(** A row of [rm_dilution_rules]. *)
Record dilution_rule : Type := {
  dil_rm_code : string;
  component_rm_code : string;
  percentage : Q
}.

Definition key (r : formula_row) : string * string := (fg_code r, rm_code r).

Definition same_key (a b : formula_row) : bool :=
  (String.eqb (fg_code a) (fg_code b) && String.eqb (rm_code a) (rm_code b))%bool.

(** Adds a row to the group of its (FG Code, RM Code), opening the group
    when it is the first of its key. *)
Fixpoint group_add (r : formula_row) (groups : list formula_row)
  : list formula_row :=
  match groups with
  | [] => [ {| fg_code := fg_code r; rm_code := rm_code r;
               quantity := Qred (quantity r) |} ]
  | g :: gs =>
      if same_key g r
      then {| fg_code := fg_code g; rm_code := rm_code g;
              quantity := Qred (quantity g + quantity r) |} :: gs
      else g :: group_add r gs
  end.

(** Order of the group keys: by FG Code, then by RM Code. *)
Definition key_leb (a b : formula_row) : bool :=
  match String.compare (fg_code a) (fg_code b) with
  | Lt => true
  | Gt => false
  | Eq => String.leb (rm_code a) (rm_code b)
  end.

Fixpoint insert_sorted (r : formula_row) (l : list formula_row)
  : list formula_row :=
  match l with
  | [] => [r]
  | x :: l' => if key_leb r x then r :: l else x :: insert_sorted r l'
  end.

Definition sort_rows (l : list formula_row) : list formula_row :=
  fold_right insert_sorted [] l.

(** [df.groupby(['FG Code', 'RM Code'])['Quantity'].sum().reset_index()]:
    one row per key, the quantities of the key summed, keys ascending. *)
Definition groupby_sum (rows : list formula_row) : list formula_row :=
  sort_rows (fold_left (fun groups r => group_add r groups) rows []).

(** ** apply_rm_replacement (app.py, lines 108-131) *)

(** The dict built by the loop over the rules: a later rule overwrites. *)
Definition replacement_map (rules : list replacement_rule)
  : gmap string string :=
  fold_left (fun m row => <[norm (old_rm_code row) := norm (new_rm_code row)]> m)
            rules ∅.

(** [replacement_map.get(preserve_8char_code(x), preserve_8char_code(x))] *)
Definition replace_code (m : gmap string string) (x : string) : string :=
  default (norm x) (m !! norm x).

Definition apply_rm_replacement (rm_replacement_rules : list replacement_rule)
    (fg_formulas : list formula_row) : list formula_row :=
  match rm_replacement_rules, fg_formulas with
  | [], _ => fg_formulas
  | _, [] => fg_formulas
  | _, _ =>
      let m := replacement_map rm_replacement_rules in
      let modified_formulas :=
        map (fun row => {| fg_code := fg_code row;
                           rm_code := replace_code m (rm_code row);
                           quantity := quantity row |}) fg_formulas in
      groupby_sum modified_formulas
  end.

(** ** apply_dilution_rules (app.py, lines 134-187) *)

(** The quantity of one component: share, floor rule, rounding. *)
Definition component_qty (quantity percentage : Q) : Q :=
  let component_qty := quantity * (percentage / 100) in
  let component_qty :=
    if Qltb (Qabs component_qty) (5 # 100000) then (1 # 10000)
    else component_qty in
  py_round component_qty 4.

(** The rows appended to [diluted_formulas] for one formula row. *)
Definition dilute_row (rm_dilution_rules : list dilution_rule)
    (frow : formula_row) : list formula_row :=
  let rm := norm (rm_code frow) in
  let dilution_components :=
    List.filter (fun r => String.eqb (dil_rm_code r) rm) rm_dilution_rules in
  match dilution_components with
  | [] => [ {| fg_code := fg_code frow; rm_code := rm;
               quantity := quantity frow |} ]
  | _ =>
      map (fun dil_row =>
             {| fg_code := fg_code frow;
                rm_code := norm (component_rm_code dil_row);
                quantity := component_qty (quantity frow)
                                          (percentage dil_row) |})
          dilution_components
  end.

Definition apply_dilution_rules (rm_dilution_rules : list dilution_rule)
    (formulas_df : list formula_row) : list formula_row :=
  match rm_dilution_rules with
  | [] => formulas_df
  | _ =>
      let diluted_formulas :=
        flat_map (dilute_row rm_dilution_rules) formulas_df in
      match diluted_formulas with
      | [] => []
      | _ => groupby_sum diluted_formulas
      end
  end.

(** ** Production planning: the allocation loop of tab 5
       (app.py, lines 1629-1783) *)

(** [stock_dict]: the stock table as a dict (a later row of the same code
    overwrites), every quantity rounded to [decimal_places]. *)
Definition stock_dict (rm_stock : list stock_row) (decimal_places : nat)
  : gmap string Q :=
  (fun v => py_round v decimal_places)
    <$> fold_left (fun m r => <[stock_rm_code r := stock_quantity r]> m)
                  rm_stock (∅ : gmap string Q).

(** [d.get(rm, 0)] *)
Definition get0 (d : gmap string Q) (rm : string) : Q := default 0 (d !! rm).

(** [min(l) if l else 0] *)
Definition min_or_zero (l : list Z) : option Z :=
  match l with
  | [] => Some 0%Z
  | _ => py_min l
  end.

(** One row of the MAX pass, against the initial stock.
    ([max_shortage_breakdown] is written there and never read.) *)
Definition max_batches_row (initial_stock : gmap string Q)
    (decimal_places : nat) (row : formula_row) : option Z :=
  let rm := norm (rm_code row) in
  let req_per_batch := py_round (quantity row) decimal_places in
  let avail := get0 initial_stock rm in
  if (Qleb req_per_batch 0 || Qleb avail 0)%bool then Some 0%Z
  else py_floordiv avail req_per_batch.

(** What one row of the ACTUAL pass appends to [possible_batches],
    [missing_rms] and [shortage_breakdown]. *)
Record row_result : Type := {
  rr_batches : Z;
  rr_missing : list string;
  rr_lines : list string
}.

(** [expected_batches = max(1, int(expected_capacity // 25))] *)
Definition expected_batches_of (expected_capacity : Q) : option Z :=
  b ← py_floordiv expected_capacity 25; Some (Z.max 1 b).

(** One row of the ACTUAL pass when an expected capacity is set. *)
Definition expected_row (allocated_stock : gmap string Q)
    (decimal_places : nat) (expected_batches : Z) (row : formula_row)
  : option row_result :=
  let rm := norm (rm_code row) in
  let req_per_batch := py_round (quantity row) decimal_places in
  let avail := get0 allocated_stock rm in
  let total_required := req_per_batch * inject_Z expected_batches in
  if Qleb total_required 0 then
    Some {| rr_batches := 0; rr_missing := [];
            rr_lines := [ rm ++ ": Invalid requirement ("
                          ++ fmt_fixed false decimal_places req_per_batch
                          ++ " Kg per batch)" ]%string |}
  else if Qleb avail 0 then
    Some {| rr_batches := 0; rr_missing := [rm];
            rr_lines := [ rm ++ ": Required "
                          ++ fmt_fixed false decimal_places total_required
                          ++ " Kg, Available 0.0000 Kg" ]%string |}
  else if Qleb total_required avail then
    Some {| rr_batches := expected_batches; rr_missing := []; rr_lines := [] |}
  else
    max_batches_for_rm ← py_floordiv avail req_per_batch;
    if (max_batches_for_rm <? expected_batches)%Z then
      let shortage := total_required - avail in
      Some {| rr_batches := max_batches_for_rm; rr_missing := [rm];
              rr_lines := [ rm ++ ": Required "
                            ++ fmt_fixed false decimal_places total_required
                            ++ " Kg for " ++ str_of_Z expected_batches
                            ++ " batches, Available "
                            ++ fmt_fixed false decimal_places avail
                            ++ " Kg, Shortage "
                            ++ fmt_fixed false decimal_places shortage
                            ++ " Kg" ]%string |}
    else
      Some {| rr_batches := max_batches_for_rm; rr_missing := [];
              rr_lines := [] |}.

(** One row of the ACTUAL pass in auto mode. *)
Definition auto_row (allocated_stock : gmap string Q)
    (decimal_places : nat) (row : formula_row) : option row_result :=
  let rm := norm (rm_code row) in
  let req_per_batch := py_round (quantity row) decimal_places in
  let avail := get0 allocated_stock rm in
  if Qleb req_per_batch 0 then
    Some {| rr_batches := 0; rr_missing := [];
            rr_lines := [ rm ++ ": Invalid requirement ("
                          ++ fmt_fixed false decimal_places req_per_batch
                          ++ " Kg)" ]%string |}
  else if Qleb avail 0 then
    Some {| rr_batches := 0; rr_missing := [rm];
            rr_lines := [ rm ++ ": Required "
                          ++ fmt_fixed false decimal_places req_per_batch
                          ++ " Kg per batch, Available 0.0000 Kg" ]%string |}
  else
    max_batches_for_rm ← py_floordiv avail req_per_batch;
    if (max_batches_for_rm =? 0)%Z then
      let shortage := req_per_batch - avail in
      Some {| rr_batches := max_batches_for_rm; rr_missing := [rm];
              rr_lines := [ rm ++ ": Required "
                            ++ fmt_fixed false decimal_places req_per_batch
                            ++ " Kg per batch, Available "
                            ++ fmt_fixed false decimal_places avail
                            ++ " Kg, Shortage "
                            ++ fmt_fixed false decimal_places shortage
                            ++ " Kg" ]%string |}
    else
      Some {| rr_batches := max_batches_for_rm; rr_missing := [];
              rr_lines := [] |}.

Definition status_ready : string := "✅ Ready".
Definition status_shortage : string := "❌ Shortage".

(** The stock depletion step: one update per formula row, on codes the
    pool holds. *)
Definition deplete (decimal_places : nat) (actual_batches : Z)
    (formula : list formula_row) (allocated_stock : gmap string Q)
  : gmap string Q :=
  fold_left
    (fun (allocated_stock : gmap string Q) row =>
       let rm := norm (rm_code row) in
       let req_total :=
         py_round (quantity row * inject_Z actual_batches) decimal_places in
       match allocated_stock !! rm with
       | Some v => <[rm := py_round (v - req_total) decimal_places]> allocated_stock
       | None => allocated_stock
       end)
    formula allocated_stock.

(** The local variables of one iteration of the loop over the FIFO order,
    as they stand at [results.append]. *)
Record fg_locals : Type := {
  fg : string;
  expected_capacity : Q;
  max_possible_batches : Z;
  max_capacity : Z;
  possible_batches : list Z;
  missing_rms : list string;
  shortage_breakdown : list string;
  actual_batches : Z;
  actual_capacity : Z;
  status : string
}.

(** The dict appended to [results]. *)
Record result : Type := {
  FG : string;
  Expected : string;
  Max : string;
  Actual : string;
  Status : string;
  Missing : string;
  Batches : Z
}.

Definition result_of (l : fg_locals) : result :=
  {| FG := fg l;
     Expected := if Qltb 0 (expected_capacity l)
                 then (fmt_fixed true 1 (expected_capacity l) ++ " Kg")%string
                 else "Auto";
     Max := (fmt_fixed true 1 (inject_Z (max_capacity l)) ++ " Kg")%string;
     Actual := (fmt_fixed true 1 (inject_Z (actual_capacity l)) ++ " Kg")%string;
     Status := status l;
     Missing := match missing_rms l with
                | [] => "None"
                | _ => (str_of_Z (Z.of_nat (length (missing_rms l)))
                        ++ " RM(s)")%string
                end;
     Batches := actual_batches l |}.

(** The body of the loop for an FG whose formula is not empty: the locals
    it computes. *)
Definition analyse_fg (initial_stock allocated_stock : gmap string Q)
    (decimal_places : nat) (expected_capacity : Q)
    (fg : string) (formula : list formula_row) : option fg_locals :=
  max_possible_batches_list ←
    mapM (max_batches_row initial_stock decimal_places) formula;
  max_possible_batches ← min_or_zero max_possible_batches_list;
  let max_capacity := (max_possible_batches * 25)%Z in
  '(expected_batches, rows) ←
    (if Qltb 0 expected_capacity then
       expected_batches ← expected_batches_of expected_capacity;
       rows ← mapM (expected_row allocated_stock decimal_places
                                 expected_batches) formula;
       Some (expected_batches, rows)
     else
       rows ← mapM (auto_row allocated_stock decimal_places) formula;
       Some (0%Z, rows));
  let possible_batches := map rr_batches rows in
  let missing_rms := concat (map rr_missing rows) in
  let shortage_breakdown := concat (map rr_lines rows) in
  max_possible_for_actual ← min_or_zero possible_batches;
  let actual_batches :=
    if Qltb 0 expected_capacity
    then Z.min expected_batches max_possible_for_actual
    else max_possible_for_actual in
  let actual_capacity := (actual_batches * 25)%Z in
  let status :=
    if (25 <=? actual_capacity)%Z then status_ready else status_shortage in
  Some {| fg := fg;
          expected_capacity := expected_capacity;
          max_possible_batches := max_possible_batches;
          max_capacity := max_capacity;
          possible_batches := possible_batches;
          missing_rms := missing_rms;
          shortage_breakdown := shortage_breakdown;
          actual_batches := actual_batches;
          actual_capacity := actual_capacity;
          status := status |}.

(** What the loop carries from one FG to the next. *)
Record run_state : Type := {
  allocated_stock : gmap string Q;
  iterations : list fg_locals;
  shortage_details : gmap string (list string)
}.

(** [results] *)
Definition results (st : run_state) : list result :=
  map result_of (iterations st).

(** One iteration of [for fg in fg_analysis_order.keys()]. *)
Definition process_fg (initial_stock : gmap string Q)
    (formulas_to_use : list formula_row)
    (fg_expected_capacity : gmap string Q) (decimal_places : nat)
    (st : run_state) (fg : string) : option run_state :=
  let formula :=
    List.filter (fun row => String.eqb (fg_code row) fg) formulas_to_use in
  match formula with
  | [] => Some st
  | _ =>
      let expected_capacity := get0 fg_expected_capacity fg in
      l ← analyse_fg initial_stock (allocated_stock st) decimal_places
                     expected_capacity fg formula;
      let allocated :=
        if ((0 <? actual_batches l)%Z && String.eqb (status l) status_ready)%bool
        then deplete decimal_places (actual_batches l) formula
                     (allocated_stock st)
        else allocated_stock st in
      Some {| allocated_stock := allocated;
              iterations := iterations st ++ [l];
              shortage_details :=
                <[fg := shortage_breakdown l]> (shortage_details st) |}
  end.

Fixpoint allocation_loop (initial_stock : gmap string Q)
    (formulas_to_use : list formula_row)
    (fg_expected_capacity : gmap string Q) (decimal_places : nat)
    (fg_analysis_order : list string) (st : run_state) : option run_state :=
  match fg_analysis_order with
  | [] => Some st
  | fg :: rest =>
      st' ← process_fg initial_stock formulas_to_use fg_expected_capacity
                       decimal_places st fg;
      allocation_loop initial_stock formulas_to_use fg_expected_capacity
                      decimal_places rest st'
  end.

(** [formulas_to_use]: the modified formulas when there are some. *)
Definition choose_formulas (modified_fg_formulas fg_formulas : list formula_row)
  : list formula_row :=
  match modified_fg_formulas with
  | [] => fg_formulas
  | _ => modified_fg_formulas
  end.

(** The analysis of tab 5 from the session state. *)
Definition production_analysis (rm_stock : list stock_row)
    (formulas_to_use : list formula_row)
    (fg_analysis_order : list string)
    (fg_expected_capacity : gmap string Q) (decimal_places : nat)
  : option run_state :=
  let stock_dict := stock_dict rm_stock decimal_places in
  let initial_stock := stock_dict in
  allocation_loop initial_stock formulas_to_use fg_expected_capacity
                  decimal_places fg_analysis_order
                  {| allocated_stock := stock_dict;
                     iterations := [];
                     shortage_details := ∅ |}.

(** ** The wording of the specification, for comparison with the code *)

(** The minimum of a list, 0 for the empty one. *)
Definition list_min0 (l : list Z) : Z :=
  match l with
  | [] => 0%Z
  | x :: l' => fold_left Z.min l' x
  end.

(** Max-capacity pass as worded: [floor(initial[rm] / qty_per_batch)] when
    [qty_per_batch > 0] and [initial[rm] > 0], else 0; the requirement is
    the rounded one and a missing code counts as 0. *)
Definition max_batches_words (initial : gmap string Q) (decimal_places : nat)
    (row : formula_row) : Z :=
  let qty_per_batch := py_round (quantity row) decimal_places in
  let have := get0 initial (norm (rm_code row)) in
  if (Qltb 0 qty_per_batch && Qltb 0 have)%bool
  then Qfloor (have / qty_per_batch)
  else 0%Z.

(** [maxCapacity = maxBatches * 25], the minimum taken over the rows. *)
Definition max_capacity_words (initial : gmap string Q) (decimal_places : nat)
    (formula : list formula_row) : Z :=
  (list_min0 (map (max_batches_words initial decimal_places) formula) * 25)%Z.

(** The formula rows of one FG. *)
Definition formula_of (formulas_to_use : list formula_row) (fg : string)
  : list formula_row :=
  List.filter (fun row => String.eqb (fg_code row) fg) formulas_to_use.

(** Target batches as worded: [max(1, floor(expectedCapacity / 25))]. *)
Definition target_batches (expected_capacity : Q) : Z :=
  Z.max 1 (Qfloor (expected_capacity / 25)).

(** The rows of the actual pass of one FG, whichever the mode. *)
Definition actual_rows (allocated : gmap string Q) (dp : nat) (ec : Q)
    (formula : list formula_row) : option (list row_result) :=
  if Qltb 0 ec
  then mapM (expected_row allocated dp (target_batches ec)) formula
  else mapM (auto_row allocated dp) formula.


(** ** Predicates on the stock pools *)

(** Entry by entry, a missing code read as 0, [allocated] is at most
    [initial]. *)
Definition pool_le (allocated initial : gmap string Q) : Prop :=
  forall rm, get0 allocated rm <= get0 initial rm.

(** Every quantity of the pool is a fixed point of the rounding. *)
Definition pool_rounded (pool : gmap string Q) (decimal_places : nat) : Prop :=
  forall rm, py_round (get0 pool rm) decimal_places == get0 pool rm.

(** An iteration [l] of a run is the analysis of its FG against some pool
    below the initial one. *)
Definition analysed (initial : gmap string Q) (formulas : list formula_row)
    (ecs : gmap string Q) (decimal_places : nat) (l : fg_locals) : Prop :=
  exists allocated,
    pool_le allocated initial /\
    formula_of formulas (fg l) <> [] /\
    analyse_fg initial allocated decimal_places (get0 ecs (fg l)) (fg l)
               (formula_of formulas (fg l)) = Some l.

(** ** The FIFO scenario: two FGs needing 30 kg of one RM, 30 kg in stock *)

Definition fifo_formulas : list formula_row :=
  [ {| fg_code := "FG100000"; rm_code := "RM_X0000"; quantity := 30 |};
    {| fg_code := "FG200000"; rm_code := "RM_X0000"; quantity := 30 |} ].

Definition fifo_stock : list stock_row :=
  [ {| stock_rm_code := "RM_X0000"; stock_quantity := 30 |} ].

(** What a run reports of each FG: code, max capacity, batches, actual
    capacity, status. *)
Definition summary (st : run_state) : list (string * Z * Z * Z * string) :=
  map (fun l => (fg l, max_capacity l, actual_batches l, actual_capacity l,
                 status l)) (iterations st).

(** ** The normaliser as worded *)

(** Missing value to the empty string; otherwise trim, then all-digit text
    is padded with zeros on the left to width 8 (left as it is when longer
    than 8), and other text is padded with ['0'] on the right to width 8 or
    cut to its first 8 characters. *)
Definition normalize_words (code : cell) : string :=
  match code with
  | NaN => ""
  | Str s =>
      let t := strip s in
      if isdigit t then
        if (8 <? String.length t)%nat then t
        else fill (8 - String.length t) "0" ++ t
      else if (String.length t <? 8)%nat
           then t ++ fill (8 - String.length t) "0"
           else prefix 8 t
  end.

(** The trimmed text is not all digits, is longer than 8 characters and its
    8th character is white space: the cut leaves a code ending in white
    space. *)
Definition cut_at_space (s : string) : bool :=
  let t := strip s in
  (negb (isdigit t) && (8 <? String.length t)%nat && ends_ws (prefix 8 t))%bool.

(** ** The replacement transform as worded *)

(** The new code of the last rule whose normalised old code is [k]. *)
Fixpoint last_rule_for (k : string) (rules : list replacement_rule)
  : option string :=
  match rules with
  | [] => None
  | r :: rules' =>
      match last_rule_for k rules' with
      | Some n => Some n
      | None => if String.eqb (norm (old_rm_code r)) k
                then Some (norm (new_rm_code r)) else None
      end
  end.

(** A formula entry with its normalised RM code sent through the rules,
    kept when no rule is for it. *)
Definition rename_words (rules : list replacement_rule) (row : formula_row)
  : formula_row :=
  {| fg_code := fg_code row;
     rm_code := match last_rule_for (norm (rm_code row)) rules with
                | Some n => n
                | None => norm (rm_code row)
                end;
     quantity := quantity row |}.

(** The sum of the quantities of the rows of one (FG, RM). *)
Fixpoint total (k : string * string) (rows : list formula_row) : Q :=
  match rows with
  | [] => 0
  | r :: rows' =>
      if (String.eqb (fg_code r) (fst k) && String.eqb (rm_code r) (snd k))%bool
      then quantity r + total k rows'
      else total k rows'
  end.

(** ** More of the session: what the loop leaves for the reports *)

(** The FG has formula rows: the loop does not skip it. *)
Definition has_formula (formulas_to_use : list formula_row) (fg : string)
  : bool :=
  match formula_of formulas_to_use fg with
  | [] => false
  | _ => true
  end.

(** The normalised RM codes a formula reads and depletes. *)
Definition formula_rms (formula : list formula_row) : list string :=
  map (fun row => norm (rm_code row)) formula.

(** [x] is a multiple of the precision: rounding leaves it unchanged. *)
Definition rounded (x : Q) (decimal_places : nat) : Prop :=
  py_round x decimal_places == x.

(** What one FG takes of [rm] per batch: the quantities of its formula
    rows whose normalised code is [rm]. *)
Fixpoint per_batch (rm : string) (formula : list formula_row) : Q :=
  match formula with
  | [] => 0
  | row :: formula' =>
      if String.eqb (norm (rm_code row)) rm
      then quantity row + per_batch rm formula'
      else per_batch rm formula'
  end.

(** What the results of a run take of [rm]: per result with batches, the
    batches times what its FG takes per batch. *)
Fixpoint consumed (formulas_to_use : list formula_row) (rm : string)
    (its : list fg_locals) : Q :=
  match its with
  | [] => 0
  | l :: its' =>
      (if (0 <? actual_batches l)%Z
       then per_batch rm (formula_of formulas_to_use (fg l))
            * inject_Z (actual_batches l)
       else 0)
      + consumed formulas_to_use rm its'
  end.

(** ** After the loop: totals and the RM analysis of the Excel export *)

(** [sub in s] *)
Fixpoint contains (sub s : string) : bool :=
  (String.prefix sub s
   || match s with
      | EmptyString => false
      | String _ s' => contains sub s'
      end)%bool.

(** [ready_fgs = [r for r in results if "✅" in r['Status']]]
    (app.py, line 1797) *)
Definition ready_fgs (results : list result) : list result :=
  List.filter (fun r => contains "✅" (Status r)) results.

(** [d[k] = v] on a dict held as the list of its items in insertion
    order. *)
Fixpoint dict_set {V : Type} (k : string) (v : V) (d : list (string * V))
  : list (string * V) :=
  match d with
  | [] => [(k, v)]
  | (k', v') :: d' =>
      if String.eqb k' k then (k', v) :: d' else (k', v') :: dict_set k v d'
  end.





(** ** The loaders of tab 1 and tab 2, once the columns are found *)

(** All the characters are white space. *)
Fixpoint all_space (s : string) : bool :=
  match s with
  | EmptyString => true
  | String c s' => (isspace c && all_space s')%bool
  end.

(** [pd.to_numeric(col, errors='coerce').fillna(0)] on one cell: the number
    the cell holds, 0 when it holds none. *)
Definition to_numeric0 (cell_value : option Q) : Q := default 0 cell_value.

(** The two tests on a processed code: [!= ''] and [!= 'nan']. *)
Definition kept_code (code : string) : bool :=
  (negb (String.eqb code "") && negb (String.eqb code "nan"))%bool.

(** [processed_df] of the stock upload (app.py, lines 669-676). *)
Definition process_rm_stock (df : list (cell * option Q)) : list stock_row :=
  List.filter
    (fun r => kept_code (stock_rm_code r))
    (map (fun '(code, qty) =>
            {| stock_rm_code := preserve_8char_code code;
               stock_quantity := to_numeric0 qty |}) df).

(** The stock upload: the processed table replaces the stock when it is
    not empty (app.py, lines 678-682). *)
Definition upload_rm_stock (df : list (cell * option Q))
    (rm_stock : list stock_row) : list stock_row :=
  match process_rm_stock df with
  | [] => rm_stock
  | processed_df => processed_df
  end.

(** [processed_fg] of the formula upload (app.py, lines 906-918). *)
Definition process_fg_formulas (new_fg : list (cell * cell * option Q))
  : list formula_row :=
  List.filter
    (fun r => (kept_code (fg_code r) && kept_code (rm_code r))%bool)
    (map (fun '(fg, rm, qty) =>
            {| fg_code := preserve_8char_code fg;
               rm_code := preserve_8char_code rm;
               quantity := to_numeric0 qty |}) new_fg).

(** [df.drop_duplicates(subset=['FG Code', 'RM Code'], keep='first')],
    [seen] being the keys of the rows already passed. *)
Fixpoint drop_duplicates_from (seen : list (string * string))
    (rows : list formula_row) : list formula_row :=
  match rows with
  | [] => []
  | r :: rows' =>
      if existsb (fun k => (String.eqb (fst k) (fg_code r)
                            && String.eqb (snd k) (rm_code r))%bool) seen
      then drop_duplicates_from seen rows'
      else r :: drop_duplicates_from (key r :: seen) rows'
  end.

Definition drop_duplicates (rows : list formula_row) : list formula_row :=
  drop_duplicates_from [] rows.

(** One file of the formula upload: the first table is taken as it is, a
    later one is appended and duplicates of (FG, RM) dropped, the first
    kept (app.py, lines 920-928). *)
Definition upload_fg_formulas (new_fg : list (cell * cell * option Q))
    (fg_formulas : list formula_row) : list formula_row :=
  match process_fg_formulas new_fg with
  | [] => fg_formulas
  | processed_fg =>
      match fg_formulas with
      | [] => processed_fg
      | _ => drop_duplicates (fg_formulas ++ processed_fg)
      end
  end.

(** ** Totals of a formula table *)

(** The sum of the quantities of the rows of one FG. *)
Fixpoint fg_total (f : string) (rows : list formula_row) : Q :=
  match rows with
  | [] => 0
  | r :: rows' =>
      if String.eqb (fg_code r) f then quantity r + fg_total f rows'
      else fg_total f rows'
  end.

(** ** get_fg_color (app.py, lines 68-79) *)

Definition colors_list : list string :=
  [ "#1f77b4"; "#ff7f0e"; "#2ca02c"; "#d62728"; "#9467bd";
    "#8c564b"; "#e377c2"; "#7f7f7f"; "#bcbd22"; "#17becf";
    "#aec7e8"; "#ffbb78"; "#98df8a"; "#ff9896"; "#c5b0d5";
    "#c49c94"; "#f7b6d2"; "#c7c7c7"; "#dbdb8d"; "#9edae5" ].

(** The colour returned and the [fg_colors] dict the call leaves.  (The
    call also seeds the random generator, which nothing here reads.) *)
Definition get_fg_color (fg_code : string) (fg_colors : gmap string string)
  : string * gmap string string :=
  match fg_colors !! fg_code with
  | Some color => (color, fg_colors)
  | None =>
      let color :=
        nth (size fg_colors mod length colors_list) colors_list "" in
      (color, <[fg_code := color]> fg_colors)
  end.

(** [fg_colors] after asking for the colours of the codes in turn. *)
Definition colors_after (codes : list string) (fg_colors : gmap string string)
  : gmap string string :=
  fold_left (fun d code => snd (get_fg_color code d)) codes fg_colors.

(** ** The FIFO order built from the selection (app.py, lines 1015-1025) *)

Fixpoint insert_str (x : string) (l : list string) : list string :=
  match l with
  | [] => [x]
  | y :: l' => if String.leb x y then x :: l else y :: insert_str x l'
  end.

(** [sorted(selected_fgs)] on strings. *)
Definition sorted (l : list string) : list string := fold_right insert_str [] l.

(** [enumerate(l)] *)
Fixpoint enumerate_from {A : Type} (i : nat) (l : list A) : list (nat * A) :=
  match l with
  | [] => []
  | x :: l' => (i, x) :: enumerate_from (S i) l'
  end.

(** [new_order]: the dict filled with [new_order[fg] = i] along the sorted
    selection, as the list of its items. *)
Definition new_order (selected_fgs : list string) : list (string * nat) :=
  fold_left (fun d '(i, fg) => dict_set fg i d)
            (enumerate_from 0 (sorted selected_fgs)) [].

(** [fg_analysis_order.keys()] after the selection is taken. *)
Definition fifo_order_of (selected_fgs : list string) : list string :=
  map fst (new_order selected_fgs).
(** * Properties *)

(** ** Rounding and floor division *)

Lemma round_half_even_cases (x : Q) :
  round_half_even x = Qfloor x \/ round_half_even x = (Qfloor x + 1)%Z.
Proof.
  unfold round_half_even.
  destruct (Qcompare _ _); [destruct (Z.even _) | |]; auto.
Qed.

Lemma round_half_even_mono (x y : Q) :
  x <= y -> (round_half_even x <= round_half_even y)%Z.
Proof.
  intros Hxy.
  pose proof (Qfloor_resp_le x y Hxy) as Hf.
  destruct (Z.eq_dec (Qfloor x) (Qfloor y)) as [He | Hne].
  - unfold round_half_even. rewrite <- He.
    pose proof (Qfloor_le x) as Hx.
    destruct (Qcompare_spec (x - inject_Z (Qfloor x)) (1 # 2)) as [H1 | H1 | H1];
      destruct (Qcompare_spec (y - inject_Z (Qfloor x)) (1 # 2)) as [H2 | H2 | H2];
      try destruct (Z.even (Qfloor x)); try lia; exfalso; lra.
  - destruct (round_half_even_cases x) as [-> | ->],
             (round_half_even_cases y) as [-> | ->]; lia.
Qed.

#[local] Instance round_half_even_comp : Proper (Qeq ==> eq) round_half_even.
Proof.
  intros x y Hxy. unfold round_half_even.
  rewrite (Qfloor_comp x y Hxy).
  assert (Hc : (x - inject_Z (Qfloor y) ?= 1 # 2) = (y - inject_Z (Qfloor y) ?= 1 # 2)).
  { apply Qcompare_comp; [rewrite Hxy |]; reflexivity. }
  now rewrite Hc.
Qed.

Lemma round_half_even_Z (n : Z) : round_half_even (inject_Z n) = n.
Proof.
  unfold round_half_even. rewrite Qfloor_Z.
  destruct (Qcompare_spec (inject_Z n - inject_Z n) (1 # 2)) as [H | H | H];
    try reflexivity; exfalso; lra.
Qed.

Lemma pow10_pos (n : nat) : (0 < pow10 n)%Z.
Proof. unfold pow10. apply Z.pow_pos_nonneg; lia. Qed.

Lemma pow10_Qpos (n : nat) : 0 < inject_Z (pow10 n).
Proof.
  pose proof (pow10_pos n). unfold Qlt. simpl. lia.
Qed.

Lemma py_round_eq (x : Q) (n : nat) :
  py_round x n == inject_Z (round_half_even (x * inject_Z (pow10 n)))
                  / inject_Z (pow10 n).
Proof. unfold py_round. apply Qred_correct. Qed.

Lemma py_round_mono (x y : Q) (n : nat) :
  x <= y -> py_round x n <= py_round y n.
Proof.
  intros Hxy. rewrite !py_round_eq.
  pose proof (pow10_Qpos n) as Hp.
  apply Qmult_le_compat_r.
  - rewrite <- Zle_Qle. apply round_half_even_mono.
    apply Qmult_le_compat_r; lra.
  - apply Qlt_le_weak, Qinv_lt_0_compat, Hp.
Qed.

Lemma py_round_idem (x : Q) (n : nat) :
  py_round (py_round x n) n == py_round x n.
Proof.
  pose proof (pow10_Qpos n) as Hp.
  rewrite (py_round_eq (py_round x n)).
  assert (H : py_round x n * inject_Z (pow10 n)
              == inject_Z (round_half_even (x * inject_Z (pow10 n)))).
  { rewrite py_round_eq. field. lra. }
  rewrite H, round_half_even_Z. symmetry. apply py_round_eq.
Qed.

Lemma py_round_0 (n : nat) : py_round 0 n == 0.
Proof.
  rewrite py_round_eq.
  assert (H : 0 * inject_Z (pow10 n) == inject_Z 0) by (simpl; ring).
  rewrite H, round_half_even_Z. pose proof (pow10_Qpos n). field. lra.
Qed.

Lemma py_round_nonneg (x : Q) (n : nat) : 0 <= x -> 0 <= py_round x n.
Proof. intros H. rewrite <- (py_round_0 n). now apply py_round_mono. Qed.

Lemma py_round_nonpos (x : Q) (n : nat) : x <= 0 -> py_round x n <= 0.
Proof. intros H. rewrite <- (py_round_0 n). now apply py_round_mono. Qed.

Lemma py_round_pos_inv (x : Q) (n : nat) : 0 < py_round x n -> 0 < x.
Proof.
  intros H. destruct (Qlt_le_dec 0 x) as [|Hle]; [assumption|].
  pose proof (py_round_nonpos x n Hle). lra.
Qed.

Lemma Qleb_true (a b : Q) : Qleb a b = true <-> a <= b.
Proof. apply Qle_bool_iff. Qed.

Lemma Qleb_false (a b : Q) : Qleb a b = false <-> b < a.
Proof.
  unfold Qleb. split; intros H.
  - apply Qnot_le_lt. intros Hle. apply Qle_bool_iff in Hle. congruence.
  - destruct (Qle_bool a b) eqn:E; [|reflexivity].
    apply Qle_bool_iff in E. lra.
Qed.

Lemma Qltb_true (a b : Q) : Qltb a b = true <-> a < b.
Proof.
  unfold Qltb. rewrite negb_true_iff. apply (Qleb_false b a).
Qed.

Lemma Qltb_false (a b : Q) : Qltb a b = false <-> b <= a.
Proof.
  unfold Qltb. rewrite negb_false_iff. apply (Qleb_true b a).
Qed.

Lemma py_floordiv_pos (a b : Q) :
  0 < b -> py_floordiv a b = Some (Qfloor (a / b)).
Proof.
  intros Hb. unfold py_floordiv.
  destruct (Qeq_bool b 0) eqn:E; [|reflexivity].
  apply Qeq_bool_eq in E. lra.
Qed.

Lemma Qdiv_le_mono (a a' b : Q) : 0 < b -> a <= a' -> a / b <= a' / b.
Proof.
  intros Hb Ha. apply Qmult_le_compat_r; [assumption|].
  apply Qlt_le_weak, Qinv_lt_0_compat, Hb.
Qed.

Lemma floor_div_mono (a a' b : Q) :
  0 < b -> a <= a' -> (Qfloor (a / b) <= Qfloor (a' / b))%Z.
Proof. intros Hb Ha. apply Qfloor_resp_le, Qdiv_le_mono; assumption. Qed.

Lemma floor_div_ge_mult (a b : Q) (k : Z) :
  0 < b -> b * inject_Z k <= a -> (k <= Qfloor (a / b))%Z.
Proof.
  intros Hb H. rewrite <- (Qfloor_Z k). apply Qfloor_resp_le.
  apply Qle_shift_div_l; lra.
Qed.

Lemma floor_div_nonneg (a b : Q) : 0 < b -> 0 <= a -> (0 <= Qfloor (a / b))%Z.
Proof.
  intros Hb Ha. apply floor_div_ge_mult; [assumption|].
  change (inject_Z 0) with 0. lra.
Qed.

(** ** The passes over the formula rows never raise *)

Lemma fold_min_le_acc (l : list Z) (m : Z) : (fold_left Z.min l m <= m)%Z.
Proof.
  revert m. induction l as [|c l IH]; intros m; simpl; [lia|].
  etransitivity; [apply IH|]. lia.
Qed.

Lemma fold_min_le_in (l : list Z) (m x : Z) :
  In x l -> (fold_left Z.min l m <= x)%Z.
Proof.
  revert m. induction l as [|c l IH]; intros m; simpl; [intros []|].
  intros [<- | Hin]; [|now apply IH].
  etransitivity; [apply fold_min_le_acc|]. lia.
Qed.

Lemma list_min0_le_all (l : list Z) (x : Z) : In x l -> (list_min0 l <= x)%Z.
Proof.
  destruct l as [|a l]; [intros []|]. simpl.
  intros [<- | Hin]; [apply fold_min_le_acc | now apply fold_min_le_in].
Qed.

Lemma list_min0_in (l : list Z) : l <> [] -> In (list_min0 l) l.
Proof.
  destruct l as [|a l]; [congruence|]. intros _. simpl.
  revert a. induction l as [|b l IH]; intros a; simpl; [now left|].
  destruct (IH (Z.min a b)) as [H | H].
  - rewrite <- H. destruct (Z.min_spec a b) as [[_ ->] | [_ ->]]; auto.
  - right. now right.
Qed.

Lemma list_min0_mono (l k : list Z) :
  Forall2 Z.le l k -> (list_min0 l <= list_min0 k)%Z.
Proof.
  intros H. destruct H as [|a b l k Hab H]; [reflexivity|]. simpl.
  revert a b Hab. induction H as [|c d l k Hcd H IH]; intros a b Hab; simpl.
  - assumption.
  - apply IH. lia.
Qed.

Lemma min_or_zero_eq (l : list Z) : min_or_zero l = Some (list_min0 l).
Proof. destruct l; reflexivity. Qed.

Lemma py_min_eq (l : list Z) : l <> [] -> py_min l = Some (list_min0 l).
Proof. destruct l; [congruence | reflexivity]. Qed.

Lemma mapM_total {A B : Type} (f : A -> option B) (g : A -> B) (l : list A) :
  (forall x, In x l -> f x = Some (g x)) -> mapM f l = Some (map g l).
Proof.
  intros H. apply mapM_Some. induction l as [|a l IH]; simpl; constructor.
  - apply H. now left.
  - apply IH. intros x Hx. apply H. now right.
Qed.

Lemma max_batches_row_eq (initial : gmap string Q) (dp : nat) (row : formula_row) :
  max_batches_row initial dp row = Some (max_batches_words initial dp row).
Proof.
  unfold max_batches_row, max_batches_words.
  destruct (Qleb (py_round (quantity row) dp) 0) eqn:E1; simpl.
  - apply Qleb_true in E1.
    assert (H : Qltb 0 (py_round (quantity row) dp) = false)
      by now apply Qltb_false.
    now rewrite H.
  - apply Qleb_false in E1.
    assert (H : Qltb 0 (py_round (quantity row) dp) = true)
      by now apply Qltb_true.
    rewrite H. simpl.
    destruct (Qleb (get0 initial (norm (rm_code row))) 0) eqn:E2.
    + apply Qleb_true in E2.
      assert (H2 : Qltb 0 (get0 initial (norm (rm_code row))) = false)
        by now apply Qltb_false.
      now rewrite H2.
    + apply Qleb_false in E2.
      assert (H2 : Qltb 0 (get0 initial (norm (rm_code row))) = true)
        by now apply Qltb_true.
      rewrite H2. now apply py_floordiv_pos.
Qed.

Lemma max_batches_words_nonneg (initial : gmap string Q) (dp : nat)
    (row : formula_row) : (0 <= max_batches_words initial dp row)%Z.
Proof.
  unfold max_batches_words.
  destruct (Qltb 0 (py_round _ _)) eqn:E1; simpl; [|lia].
  destruct (Qltb 0 (get0 _ _)) eqn:E2; [|lia].
  apply Qltb_true in E1, E2. apply floor_div_nonneg; lra.
Qed.

Lemma expected_batches_of_eq (ec : Q) :
  expected_batches_of ec = Some (target_batches ec).
Proof.
  unfold expected_batches_of, target_batches.
  rewrite py_floordiv_pos by reflexivity. reflexivity.
Qed.

Lemma target_batches_ge1 (ec : Q) : (1 <= target_batches ec)%Z.
Proof. unfold target_batches. lia. Qed.

Lemma total_required_pos (req : Q) (eb : Z) :
  (1 <= eb)%Z -> 0 < req * inject_Z eb -> 0 < req.
Proof.
  intros Heb H.
  assert (He : 1 <= inject_Z eb) by (now rewrite Zle_Qle in Heb).
  destruct (Qlt_le_dec 0 req) as [|Hle]; [assumption|]. exfalso. nra.
Qed.

Lemma expected_row_is_Some (allocated : gmap string Q) (dp : nat) (eb : Z)
    (row : formula_row) :
  (1 <= eb)%Z -> is_Some (expected_row allocated dp eb row).
Proof.
  intros Heb. unfold expected_row.
  destruct (Qleb (_ * _) 0) eqn:E1; [eauto|].
  destruct (Qleb (get0 _ _) 0) eqn:E2; [eauto|].
  destruct (Qleb (_ * _) (get0 _ _)) eqn:E3; [eauto|].
  apply Qleb_false in E1. apply total_required_pos in E1; [|assumption].
  rewrite py_floordiv_pos by assumption. simpl.
  destruct (_ <? _)%Z; eauto.
Qed.

Lemma auto_row_is_Some (allocated : gmap string Q) (dp : nat)
    (row : formula_row) : is_Some (auto_row allocated dp row).
Proof.
  unfold auto_row.
  destruct (Qleb (py_round _ _) 0) eqn:E1; [eauto|].
  destruct (Qleb (get0 _ _) 0) eqn:E2; [eauto|].
  apply Qleb_false in E1. rewrite py_floordiv_pos by assumption. simpl.
  destruct (_ =? _)%Z; eauto.
Qed.

Lemma mapM_is_Some_all {A B : Type} (f : A -> option B) (l : list A) :
  (forall x, is_Some (f x)) -> is_Some (mapM f l).
Proof.
  intros H. apply mapM_is_Some. apply Forall_forall. intros x _. apply H.
Qed.

Lemma actual_rows_is_Some (allocated : gmap string Q) (dp : nat) (ec : Q)
    (formula : list formula_row) : is_Some (actual_rows allocated dp ec formula).
Proof.
  unfold actual_rows. destruct (Qltb 0 ec).
  - apply mapM_is_Some_all. intros x.
    apply expected_row_is_Some, target_batches_ge1.
  - apply mapM_is_Some_all. intros x. apply auto_row_is_Some.
Qed.

(** What [analyse_fg] returns, field by field. *)
Lemma analyse_fg_Some (initial allocated : gmap string Q) (dp : nat) (ec : Q)
    (f : string) (formula : list formula_row) (rows : list row_result) :
  actual_rows allocated dp ec formula = Some rows ->
  analyse_fg initial allocated dp ec f formula =
  Some {| fg := f;
          expected_capacity := ec;
          max_possible_batches :=
            list_min0 (map (max_batches_words initial dp) formula);
          max_capacity := max_capacity_words initial dp formula;
          possible_batches := map rr_batches rows;
          missing_rms := concat (map rr_missing rows);
          shortage_breakdown := concat (map rr_lines rows);
          actual_batches :=
            if Qltb 0 ec
            then Z.min (target_batches ec) (list_min0 (map rr_batches rows))
            else list_min0 (map rr_batches rows);
          actual_capacity :=
            ((if Qltb 0 ec
              then Z.min (target_batches ec) (list_min0 (map rr_batches rows))
              else list_min0 (map rr_batches rows)) * 25)%Z;
          status :=
            if (25 <=? (if Qltb 0 ec
                        then Z.min (target_batches ec)
                                   (list_min0 (map rr_batches rows))
                        else list_min0 (map rr_batches rows)) * 25)%Z
            then status_ready else status_shortage |}.
Proof.
  intros Hrows. unfold analyse_fg, actual_rows in *.
  rewrite (mapM_total _ (max_batches_words initial dp))
    by (intros; apply max_batches_row_eq).
  cbn [mbind option_bind]. rewrite min_or_zero_eq. cbn [mbind option_bind].
  destruct (Qltb 0 ec).
  - rewrite expected_batches_of_eq. cbn [mbind option_bind].
    rewrite Hrows. cbn [mbind option_bind].
    rewrite min_or_zero_eq. reflexivity.
  - rewrite Hrows. cbn [mbind option_bind].
    rewrite min_or_zero_eq. reflexivity.
Qed.

Lemma analyse_fg_inv (initial allocated : gmap string Q) (dp : nat) (ec : Q)
    (f : string) (formula : list formula_row) (l : fg_locals) :
  analyse_fg initial allocated dp ec f formula = Some l ->
  exists rows, actual_rows allocated dp ec formula = Some rows /\
    fg l = f /\ expected_capacity l = ec /\
    max_possible_batches l
      = list_min0 (map (max_batches_words initial dp) formula) /\
    max_capacity l = max_capacity_words initial dp formula /\
    possible_batches l = map rr_batches rows /\
    missing_rms l = concat (map rr_missing rows) /\
    shortage_breakdown l = concat (map rr_lines rows) /\
    actual_batches l
      = (if Qltb 0 ec
         then Z.min (target_batches ec) (list_min0 (possible_batches l))
         else list_min0 (possible_batches l)) /\
    actual_capacity l = (actual_batches l * 25)%Z /\
    status l = (if (25 <=? actual_capacity l)%Z
                then status_ready else status_shortage).
Proof.
  intros H. destruct (actual_rows_is_Some allocated dp ec formula) as [rows Hr].
  exists rows. split; [assumption|].
  rewrite (analyse_fg_Some _ _ _ _ _ _ _ Hr) in H.
  injection H as <-. simpl. repeat split; reflexivity.
Qed.

Lemma analyse_fg_is_Some (initial allocated : gmap string Q) (dp : nat) (ec : Q)
    (f : string) (formula : list formula_row) :
  is_Some (analyse_fg initial allocated dp ec f formula).
Proof.
  destruct (actual_rows_is_Some allocated dp ec formula) as [rows Hr].
  rewrite (analyse_fg_Some _ _ _ _ _ _ _ Hr). eauto.
Qed.

(** ** The loop over the FIFO order *)

Lemma process_fg_inv (initial : gmap string Q) (formulas : list formula_row)
    (ecs : gmap string Q) (dp : nat) (st st' : run_state) (f : string) :
  process_fg initial formulas ecs dp st f = Some st' ->
  (formula_of formulas f = [] /\ st' = st) \/
  (formula_of formulas f <> [] /\
   exists l,
     analyse_fg initial (allocated_stock st) dp (get0 ecs f) f
                (formula_of formulas f) = Some l /\
     iterations st' = (iterations st ++ [l])%list /\
     shortage_details st' = <[f := shortage_breakdown l]> (shortage_details st) /\
     allocated_stock st' =
       if ((0 <? actual_batches l)%Z && String.eqb (status l) status_ready)%bool
       then deplete dp (actual_batches l) (formula_of formulas f)
                    (allocated_stock st)
       else allocated_stock st).
Proof.
  unfold process_fg. fold (formula_of formulas f).
  destruct (formula_of formulas f) as [|r rs] eqn:E.
  - intros [= <-]. now left.
  - intros H. right. split; [congruence|].
    destruct (analyse_fg _ _ _ _ _ _) as [l|] eqn:Ha; simpl in H; [|discriminate].
    injection H as <-. exists l. simpl. auto.
Qed.

Lemma process_fg_is_Some (initial : gmap string Q) (formulas : list formula_row)
    (ecs : gmap string Q) (dp : nat) (st : run_state) (f : string) :
  is_Some (process_fg initial formulas ecs dp st f).
Proof.
  unfold process_fg. destruct (List.filter _ _) as [|r rs]; [eauto|].
  destruct (analyse_fg_is_Some initial (allocated_stock st) dp (get0 ecs f) f
              (r :: rs)) as [l Hl].
  rewrite Hl. simpl. eauto.
Qed.

Lemma allocation_loop_is_Some (initial : gmap string Q)
    (formulas : list formula_row) (ecs : gmap string Q) (dp : nat)
    (order : list string) (st : run_state) :
  is_Some (allocation_loop initial formulas ecs dp order st).
Proof.
  revert st. induction order as [|f order IH]; intros st; simpl; [eauto|].
  destruct (process_fg_is_Some initial formulas ecs dp st f) as [st' ->].
  simpl. apply IH.
Qed.

(** A property kept by every iteration holds when the loop ends. *)
Lemma allocation_loop_invariant (P : run_state -> Prop)
    (initial : gmap string Q) (formulas : list formula_row)
    (ecs : gmap string Q) (dp : nat) :
  (forall st f st', P st ->
     process_fg initial formulas ecs dp st f = Some st' -> P st') ->
  forall order st st', P st ->
    allocation_loop initial formulas ecs dp order st = Some st' -> P st'.
Proof.
  intros Hstep. induction order as [|f order IH]; intros st st' HP H; simpl in H.
  - now injection H as <-.
  - destruct (process_fg _ _ _ _ st f) as [st1|] eqn:E; simpl in H; [|discriminate].
    eapply IH; [|exact H]. eapply Hstep; eassumption.
Qed.

(** ** Depletion keeps the allocated pool below the initial one *)

Lemma pool_le_refl (pool : gmap string Q) : pool_le pool pool.
Proof. intros rm. apply Qle_refl. Qed.

Lemma stock_dict_rounded (rm_stock : list stock_row) (dp : nat) :
  pool_rounded (stock_dict rm_stock dp) dp.
Proof.
  intros rm. unfold get0, stock_dict. rewrite lookup_fmap.
  destruct (_ !! rm); simpl; [apply py_round_idem | apply py_round_0].
Qed.

Lemma deplete_pool_le (initial : gmap string Q) (dp : nat) (ab : Z)
    (formula : list formula_row) (allocated : gmap string Q) :
  pool_rounded initial dp ->
  (0 <= ab)%Z ->
  (forall row, In row formula -> 0 <= quantity row) ->
  pool_le allocated initial ->
  pool_le (deplete dp ab formula allocated) initial.
Proof.
  intros Hr Hab. unfold deplete.
  revert allocated. induction formula as [|row formula IH];
    intros allocated Hq Hle; simpl; [assumption|].
  apply IH; [intros r Hin; apply Hq; now right|].
  destruct (allocated !! norm (rm_code row)) as [v|] eqn:E; [|assumption].
  intros rm. unfold get0 at 1.
  destruct (decide (norm (rm_code row) = rm)) as [<- | Hne].
  - rewrite lookup_insert_eq. simpl.
    assert (Hv : v <= get0 initial (norm (rm_code row))).
    { specialize (Hle (norm (rm_code row))). unfold get0 at 1 in Hle.
      now rewrite E in Hle. }
    assert (Ht : 0 <= py_round (quantity row * inject_Z ab) dp).
    { apply py_round_nonneg. apply Qmult_le_0_compat.
      - apply Hq. now left.
      - now rewrite Zle_Qle in Hab. }
    rewrite <- (Hr (norm (rm_code row))). apply py_round_mono. lra.
  - rewrite lookup_insert_ne by assumption. apply Hle.
Qed.

(** ** Row by row, the actual pass stays below the max pass *)



Lemma expected_row_pos (allocated : gmap string Q) (dp : nat)
    (eb : Z) (row : formula_row) (r : row_result) :
  (1 <= eb)%Z ->
  expected_row allocated dp eb row = Some r ->
  (0 < rr_batches r)%Z -> 0 < quantity row.
Proof.
  intros Heb. unfold expected_row.
  destruct (Qleb (_ * _) 0) eqn:E1; [intros [= <-]; simpl; lia|].
  intros _ _. apply Qleb_false in E1.
  apply total_required_pos in E1; [|assumption].
  now apply py_round_pos_inv in E1.
Qed.

Lemma auto_row_pos (allocated : gmap string Q) (dp : nat)
    (row : formula_row) (r : row_result) :
  auto_row allocated dp row = Some r ->
  (0 < rr_batches r)%Z -> 0 < quantity row.
Proof.
  unfold auto_row.
  destruct (Qleb (py_round _ _) 0) eqn:E1; [intros [= <-]; simpl; lia|].
  intros _ _. apply Qleb_false in E1. now apply py_round_pos_inv in E1.
Qed.


Lemma actual_rows_pos (allocated : gmap string Q) (dp : nat)
    (ec : Q) (formula : list formula_row) (rows : list row_result) :
  actual_rows allocated dp ec formula = Some rows ->
  (0 < list_min0 (map rr_batches rows))%Z ->
  forall row, In row formula -> 0 < quantity row.
Proof.
  unfold actual_rows. intros H Hmin.
  assert (Hall : forall r, In r rows -> (0 < rr_batches r)%Z).
  { intros r Hr. pose proof (list_min0_le_all (map rr_batches rows)
      (rr_batches r) (in_map rr_batches rows r Hr)). lia. }
  clear Hmin.
  destruct (Qltb 0 ec); apply mapM_Some in H;
    induction H as [|row r formula rows Hrow _ IH]; intros x [];
    subst; try (apply IH; [intros; apply Hall; now right | assumption]).
  - eapply expected_row_pos; eauto using target_batches_ge1.
    apply Hall. now left.
  - eapply auto_row_pos; eauto. apply Hall. now left.
Qed.

(** ** What holds of every run *)

Lemma status_ready_ne_shortage : status_ready <> status_shortage.
Proof. discriminate. Qed.

Lemma process_fg_keeps (initial : gmap string Q) (formulas : list formula_row)
    (ecs : gmap string Q) (dp : nat) (st st' : run_state) (f : string) :
  pool_rounded initial dp ->
  pool_le (allocated_stock st) initial /\
    Forall (analysed initial formulas ecs dp) (iterations st) ->
  process_fg initial formulas ecs dp st f = Some st' ->
  pool_le (allocated_stock st') initial /\
    Forall (analysed initial formulas ecs dp) (iterations st').
Proof.
  intros Hr [Hle Hall] H.
  apply process_fg_inv in H as [[_ ->] | [Hne [l (Ha & Hit & _ & Hal)]]];
    [now split|].
  destruct (analyse_fg_inv _ _ _ _ _ _ _ Ha)
    as (rows & Hrows & Hfg & Hec & _ & _ & Hposs & _ & _ & Hact & _).
  split.
  - rewrite Hal.
    destruct (0 <? actual_batches l)%Z eqn:Epos; simpl; [|assumption].
    destruct (String.eqb _ _); [|assumption].
    apply Z.ltb_lt in Epos.
    apply deplete_pool_le; try assumption; [lia|].
    intros row Hin. apply Qlt_le_weak.
    eapply actual_rows_pos; [exact Hrows | | exact Hin].
    rewrite <- Hposs. rewrite Hact in Epos.
    destruct (Qltb 0 (get0 ecs f)); lia.
  - rewrite Hit. apply Forall_app. split; [assumption|].
    constructor; [|constructor].
    exists (allocated_stock st). rewrite Hfg. auto.
Qed.

Lemma production_analysis_analysed (rm_stock : list stock_row)
    (formulas : list formula_row) (order : list string)
    (ecs : gmap string Q) (dp : nat) (st : run_state) :
  production_analysis rm_stock formulas order ecs dp = Some st ->
  pool_le (allocated_stock st) (stock_dict rm_stock dp) /\
  Forall (analysed (stock_dict rm_stock dp) formulas ecs dp) (iterations st).
Proof.
  unfold production_analysis. intros H.
  eapply (allocation_loop_invariant
            (fun st => pool_le (allocated_stock st) (stock_dict rm_stock dp) /\
                       Forall (analysed (stock_dict rm_stock dp) formulas ecs dp)
                              (iterations st))); [| |exact H].
  - intros s f s' HP Hs. eapply process_fg_keeps; eauto using stock_dict_rounded.
  - simpl. split; [apply pool_le_refl | constructor].
Qed.

(** ** The claims about the allocation engine *)



Lemma run_is_Some (rm_stock : list stock_row) (formulas : list formula_row)
    (order : list string) (ecs : gmap string Q) (dp : nat) :
  is_Some (production_analysis rm_stock formulas order ecs dp).
Proof. apply allocation_loop_is_Some. Qed.

Lemma run_analysed (rm_stock : list stock_row) (formulas : list formula_row)
    (order : list string) (ecs : gmap string Q) (dp : nat)
    (st : run_state) (l : fg_locals) :
  production_analysis rm_stock formulas order ecs dp = Some st ->
  In l (iterations st) ->
  analysed (stock_dict rm_stock dp) formulas ecs dp l.
Proof.
  intros Hst Hl.
  destruct (production_analysis_analysed _ _ _ _ _ _ Hst) as [_ Hall].
  rewrite Forall_forall in Hall. apply Hall. now apply list_elem_of_In.
Qed.

(** C1. With FIFO order [FG1; FG2], 30 kg of RM_X needed per batch by
    each and 30 kg in stock, FG1 gets exactly 1 batch (25 kg), the
    allocated pool is left with 0 of RM_X, and FG2 gets 0 batches, status
    Shortage and a shortage line citing RM_X; with the order reversed the
    batch goes to FG2 and the shortage to FG1.  For every precision the
    application allows. *)
Theorem fifo_order_is_significant (dp : nat) :
  (dp <= 6)%nat ->
  (exists st,
     production_analysis fifo_stock fifo_formulas
                         ["FG100000"; "FG200000"] ∅ dp = Some st /\
     summary st = [ ("FG100000", 25, 1, 25, "✅ Ready");
                    ("FG200000", 25, 0, 0, "❌ Shortage") ]%Z /\
     allocated_stock st !! "RM_X0000" = Some 0 /\
     shortage_details st !! "FG100000" = Some [] /\
     shortage_details st !! "FG200000"
       = Some [ "RM_X0000: Required " ++ fmt_fixed false dp 30
                ++ " Kg per batch, Available 0.0000 Kg" ]) /\
  (exists st,
     production_analysis fifo_stock fifo_formulas
                         ["FG200000"; "FG100000"] ∅ dp = Some st /\
     summary st = [ ("FG200000", 25, 1, 25, "✅ Ready");
                    ("FG100000", 25, 0, 0, "❌ Shortage") ]%Z /\
     allocated_stock st !! "RM_X0000" = Some 0 /\
     shortage_details st !! "FG200000" = Some [] /\
     shortage_details st !! "FG100000"
       = Some [ "RM_X0000: Required " ++ fmt_fixed false dp 30
                ++ " Kg per batch, Available 0.0000 Kg" ]).
Proof.
  intros Hdp.
  do 7 (destruct dp as [|dp]; [split; eexists;
          (split; [vm_compute; reflexivity|]);
          repeat split; vm_compute; reflexivity|]).
  lia.
Qed.

Lemma fifo_order_is_significant_witness :
  (3 <= 6)%nat /\
  exists st,
    production_analysis fifo_stock fifo_formulas
                        ["FG100000"; "FG200000"] ∅ 3 = Some st /\
    summary st = [ ("FG100000", 25, 1, 25, "✅ Ready");
                   ("FG200000", 25, 0, 0, "❌ Shortage") ]%Z /\
    shortage_details st !! "FG200000"
      = Some [ "RM_X0000: Required 30.000 Kg per batch, Available 0.0000 Kg" ].
Proof.
  split; [lia|].
  destruct (fifo_order_is_significant 3 ltac:(lia))
    as [(st & H1 & H2 & _ & _ & H3) _].
  exists st. repeat split; assumption.
Defined.

(** C2. For every FG of the FIFO order, the reported max capacity is the
    one worded over the initial stock snapshot alone: per formula row
    [floor(initial[rm] / qty_per_batch)] (0 unless both are positive),
    the minimum over the rows, times 25.  So it is the same whatever the
    FIFO order and the expected capacities of the run, hence whatever was
    depleted for earlier FGs; the actual capacity is not: in the FIFO
    scenario FG2 keeps a max capacity of 25 in both orders while its actual
    capacity is 0 behind FG1 and 25 ahead of it. *)
Theorem max_capacity_reads_initial_stock (rm_stock : list stock_row)
    (formulas : list formula_row) (order : list string)
    (ecs : gmap string Q) (dp : nat) :
  exists st,
    production_analysis rm_stock formulas order ecs dp = Some st /\
    (forall l, In l (iterations st) ->
       max_capacity l
       = max_capacity_words (stock_dict rm_stock dp) dp
                            (formula_of formulas (fg l))) /\
    (forall order' ecs' st' l l',
       production_analysis rm_stock formulas order' ecs' dp = Some st' ->
       In l (iterations st) -> In l' (iterations st') -> fg l = fg l' ->
       max_capacity l = max_capacity l') /\
    (exists st1 st2,
       production_analysis fifo_stock fifo_formulas
                           ["FG100000"; "FG200000"] ∅ 3 = Some st1 /\
       production_analysis fifo_stock fifo_formulas
                           ["FG200000"; "FG100000"] ∅ 3 = Some st2 /\
       In ("FG200000", 25, 0, 0, "❌ Shortage")%Z (summary st1) /\
       In ("FG200000", 25, 1, 25, "✅ Ready")%Z (summary st2)).
Proof.
  destruct (run_is_Some rm_stock formulas order ecs dp) as [st Hst].
  assert (Hmax : forall order ecs st l,
             production_analysis rm_stock formulas order ecs dp = Some st ->
             In l (iterations st) ->
             max_capacity l
             = max_capacity_words (stock_dict rm_stock dp) dp
                                  (formula_of formulas (fg l))).
  { intros o e s l Hs Hl.
    destruct (run_analysed _ _ _ _ _ _ _ Hs Hl) as (allocated & _ & _ & Ha).
    destruct (analyse_fg_inv _ _ _ _ _ _ _ Ha)
      as (rows & _ & _ & _ & _ & Hm & _). exact Hm. }
  exists st. split; [exact Hst|]. split; [|split].
  - intros l Hl. eapply Hmax; eassumption.
  - intros order' ecs' st' l l' Hst' Hl Hl' Hfg.
    rewrite (Hmax _ _ _ _ Hst Hl), (Hmax _ _ _ _ Hst' Hl'), Hfg. reflexivity.
  - eexists _, _. split; [vm_compute; reflexivity|].
    split; [vm_compute; reflexivity|]. vm_compute. auto 6.
Qed.

Lemma max_capacity_reads_initial_stock_witness :
  exists st,
    production_analysis fifo_stock fifo_formulas
                        ["FG100000"; "FG200000"] ∅ 3 = Some st /\
    forall l, In l (iterations st) ->
      max_capacity l
      = max_capacity_words (stock_dict fifo_stock 3) 3
                           (formula_of fifo_formulas (fg l)).
Proof.
  destruct (max_capacity_reads_initial_stock fifo_stock fifo_formulas
              ["FG100000"; "FG200000"] ∅ 3) as (st & H1 & H2 & _).
  exists st. split; assumption.
Defined.







(** ** The code normaliser *)

Lemma isdigit_char_not_space (c : ascii) :
  isdigit_char c = true -> isspace c = false.
Proof.
  destruct c as [[] [] [] [] [] [] [] []]; vm_compute; congruence.
Qed.

Lemma isdigit_char_not_sign (c : ascii) :
  isdigit_char c = true -> (Ascii.eqb c "+" || Ascii.eqb c "-")%bool = false.
Proof.
  destruct c as [[] [] [] [] [] [] [] []]; vm_compute; congruence.
Qed.

Lemma str_length_app (a b : string) :
  String.length (a ++ b) = (String.length a + String.length b)%nat.
Proof. induction a as [|c a IH]; simpl; [reflexivity | now rewrite IH]. Qed.

Lemma fill_length (n : nat) (c : ascii) : String.length (fill n c) = n.
Proof. induction n as [|n IH]; simpl; [reflexivity | now rewrite IH]. Qed.

Lemma prefix_all (n : nat) (s : string) :
  (String.length s <= n)%nat -> prefix n s = s.
Proof.
  revert n. induction s as [|c s IH]; intros [|n] H; simpl in *;
    try reflexivity; try lia.
  rewrite IH by lia. reflexivity.
Qed.

Lemma prefix_length (n : nat) (s : string) :
  (n <= String.length s)%nat -> String.length (prefix n s) = n.
Proof.
  revert n. induction s as [|c s IH]; intros [|n] H; simpl in *;
    try reflexivity; try lia.
  rewrite IH by lia. reflexivity.
Qed.

Lemma str_app_nil_r (s : string) : s ++ "" = s.
Proof.
  induction s as [|c s IH]; [reflexivity|].
  change (String c (s ++ "") = String c s). now rewrite IH.
Qed.

Lemma zfill_digits (w : nat) (s : string) :
  all_digits s = true -> zfill w s = fill (w - String.length s) "0" ++ s.
Proof.
  destruct s as [|c s]; simpl.
  - intros _. now rewrite str_app_nil_r.
  - intros H. apply andb_prop in H as [Hc _].
    now rewrite (isdigit_char_not_sign c Hc).
Qed.

Lemma isdigit_all_digits (s : string) : isdigit s = true -> all_digits s = true.
Proof. destruct s; [discriminate | auto]. Qed.

Lemma preserve_8char_code_words (code : cell) :
  preserve_8char_code code = normalize_words code.
Proof.
  destruct code as [|s]; [reflexivity|].
  unfold preserve_8char_code, normalize_words.
  destruct (isdigit (strip s)) eqn:Ed.
  - rewrite zfill_digits by now apply isdigit_all_digits.
    destruct (Nat.ltb_spec 8 (String.length (strip s))) as [H | H];
      [|reflexivity].
    replace (8 - String.length (strip s))%nat with 0%nat by lia. reflexivity.
  - destruct (Nat.ltb_spec (String.length (strip s)) 8) as [H | H];
      [reflexivity|].
    destruct (Nat.ltb_spec 8 (String.length (strip s))) as [H' | H'];
      [reflexivity|].
    symmetry. apply prefix_all. lia.
Qed.

(** *** White space at the ends *)

Lemma lstrip_starts (s : string) : starts_ws (lstrip s) = false.
Proof.
  induction s as [|c s IH]; simpl; [reflexivity|].
  destruct (isspace c) eqn:E; [exact IH | simpl; exact E].
Qed.

Lemma rstrip_ends (s : string) : ends_ws (rstrip s) = false.
Proof.
  induction s as [|c s IH]; simpl; [reflexivity|].
  destruct (rstrip s) as [|d r] eqn:E.
  - destruct (isspace c) eqn:Ec; simpl; [reflexivity | exact Ec].
  - exact IH.
Qed.

Lemma rstrip_starts (s : string) :
  starts_ws s = false -> starts_ws (rstrip s) = false.
Proof.
  destruct s as [|c s]; simpl; [reflexivity|]. intros Hc.
  destruct (rstrip s); [rewrite Hc|]; simpl; exact Hc.
Qed.

Lemma lstrip_id (s : string) : starts_ws s = false -> lstrip s = s.
Proof. destruct s as [|c s]; simpl; [reflexivity|]. now intros ->. Qed.

Lemma rstrip_id (s : string) : ends_ws s = false -> rstrip s = s.
Proof.
  induction s as [|c s IH]; simpl; [reflexivity|].
  destruct s as [|d s].
  - simpl. now intros ->.
  - intros H. rewrite (IH H). reflexivity.
Qed.

Lemma strip_clean (s : string) :
  starts_ws (strip s) = false /\ ends_ws (strip s) = false.
Proof.
  unfold strip. split; [apply rstrip_starts, lstrip_starts | apply rstrip_ends].
Qed.

Lemma strip_id (s : string) :
  starts_ws s = false -> ends_ws s = false -> strip s = s.
Proof.
  intros H1 H2. unfold strip. rewrite (lstrip_id s H1). now apply rstrip_id.
Qed.


Lemma all_digits_app (a b : string) :
  all_digits (a ++ b) = (all_digits a && all_digits b)%bool.
Proof.
  induction a as [|c a IH]; simpl; [reflexivity|].
  now rewrite IH, andb_assoc.
Qed.

Lemma all_digits_fill (n : nat) : all_digits (fill n "0") = true.
Proof. induction n as [|n IH]; simpl; [reflexivity | exact IH]. Qed.

Lemma all_digits_clean (s : string) :
  all_digits s = true -> starts_ws s = false /\ ends_ws s = false.
Proof.
  intros H. split.
  - destruct s as [|c s]; [reflexivity|]. simpl in *.
    apply andb_prop in H as [Hc _]. now apply isdigit_char_not_space.
  - induction s as [|c s IH]; [reflexivity|]. simpl in H.
    apply andb_prop in H as [Hc Hs]. simpl. destruct s as [|d s].
    + now apply isdigit_char_not_space.
    + now apply IH.
Qed.

Lemma ends_ws_cons (c : ascii) (s : string) :
  s <> "" -> ends_ws (String c s) = ends_ws s.
Proof. destruct s; [congruence | reflexivity]. Qed.

Lemma ends_ws_app_zero (s : string) (n : nat) :
  ends_ws (s ++ fill (S n) "0") = false.
Proof.
  induction s as [|c s IH].
  - change ("" ++ fill (S n) "0") with (fill (S n) "0").
    apply all_digits_clean, all_digits_fill.
  - change (String c s ++ fill (S n) "0")
      with (String c (s ++ fill (S n) "0")).
    rewrite ends_ws_cons; [exact IH|].
    destruct s; discriminate.
Qed.






(** C8, as amended.  The normaliser is a total function: a missing value
    goes to the empty string; text is trimmed, then all-digit text is
    padded with zeros on the left to width 8 and left unchanged when longer
    than 8, and any other text, the empty one included, is padded with
    ['0'] on the right to width 8 or cut to its first 8 characters.  So
    ["7"] gives ["00000007"], ["AB1"] gives ["AB100000"], ["ABCDEFGHI"]
    gives ["ABCDEFGH"], and the empty text gives ["00000000"]. *)
Theorem preserve_8char_code_as_worded :
  (forall code, preserve_8char_code code = normalize_words code) /\
  preserve_8char_code NaN = "" /\
  preserve_8char_code (Str "") = "00000000" /\
  preserve_8char_code (Str "   ") = "00000000" /\
  preserve_8char_code (Str "7") = "00000007" /\
  preserve_8char_code (Str "AB1") = "AB100000" /\
  preserve_8char_code (Str "ABCDEFGHI") = "ABCDEFGH" /\
  preserve_8char_code (Str "123456789") = "123456789".
Proof.
  split; [exact preserve_8char_code_words|]. repeat split; reflexivity.
Qed.

(** C8 as stated fails on the empty text: it is not sent to the empty
    string but padded to eight zeros. *)
Lemma empty_text_is_padded :
  preserve_8char_code (Str "") = "00000000" /\
  preserve_8char_code (Str "") <> "".
Proof. split; [reflexivity | discriminate]. Qed.




(** ** The dilution transform *)

Lemma dilute_row_component (rules : list dilution_rule) (frow : formula_row)
    (r : dilution_rule) :
  In r rules -> dil_rm_code r = norm (rm_code frow) ->
  In {| fg_code := fg_code frow;
        rm_code := norm (component_rm_code r);
        quantity := component_qty (quantity frow) (percentage r) |}
     (dilute_row rules frow).
Proof.
  intros Hin Hrm. unfold dilute_row.
  assert (Hf : In r (List.filter
                       (fun r => String.eqb (dil_rm_code r) (norm (rm_code frow)))
                       rules)).
  { apply filter_In. split; [assumption|]. now apply String.eqb_eq. }
  destruct (List.filter _ rules) as [|d ds] eqn:E; [destruct Hf|].
  apply (in_map (fun dil_row =>
                   {| fg_code := fg_code frow;
                      rm_code := norm (component_rm_code dil_row);
                      quantity := component_qty (quantity frow)
                                                (percentage dil_row) |})).
  exact Hf.
Qed.

(** C6. A component quantity is the original quantity times the percentage
    over 100; when its absolute value is below 0.00005 it is set to 0.0001
    before the rounding to 4 decimals, and the result is then exactly
    0.0001; otherwise it is the share rounded to 4 decimals.  That is the
    quantity of the row the transform emits for each matching rule; a row
    of 0.001 under a rule of 1 percent comes out as exactly 0.0001. *)
Theorem dilution_floor (q p : Q) :
  q * (p / 100) == q * p / 100 /\
  (Qabs (q * (p / 100)) < 5 # 100000 -> component_qty q p = 1 # 10000) /\
  (~ Qabs (q * (p / 100)) < 5 # 100000 ->
   component_qty q p = py_round (q * (p / 100)) 4) /\
  (forall rules frow r,
     In r rules -> dil_rm_code r = norm (rm_code frow) ->
     quantity frow = q -> percentage r = p ->
     In {| fg_code := fg_code frow;
           rm_code := norm (component_rm_code r);
           quantity := component_qty q p |}
        (dilute_row rules frow)) /\
  component_qty (1 # 1000) 1 = 1 # 10000 /\
  apply_dilution_rules
    [ {| dil_rm_code := "RM_A0000"; component_rm_code := "RM_C0000";
         percentage := 1 |} ]
    [ {| fg_code := "FG100000"; rm_code := "RM_A0000";
         quantity := 1 # 1000 |} ]
  = [ {| fg_code := "FG100000"; rm_code := "RM_C0000";
         quantity := 1 # 10000 |} ].
Proof.
  split; [field|]. split; [|split; [|split; [|split]]].
  - intros H. unfold component_qty.
    apply Qltb_true in H. rewrite H. reflexivity.
  - intros H. unfold component_qty.
    assert (E : Qltb (Qabs (q * (p / 100))) (5 # 100000) = false).
    { apply Qltb_false. now apply Qnot_lt_le. }
    rewrite E. reflexivity.
  - intros rules frow r Hin Hrm <- <-. now apply dilute_row_component.
  - reflexivity.
  - reflexivity.
Qed.

Lemma dilution_floor_witness :
  Qabs ((1 # 1000) * (1 / 100)) < 5 # 100000 /\
  component_qty (1 # 1000) 1 = 1 # 10000.
Proof.
  assert (H : Qabs ((1 # 1000) * (1 / 100)) < 5 # 100000) by reflexivity.
  split; [exact H|].
  exact (proj1 (proj2 (dilution_floor (1 # 1000) 1)) H).
Defined.

(** ** Grouping by (FG Code, RM Code) *)

Lemma same_key_iff (a b : formula_row) :
  same_key a b = true <-> key a = key b.
Proof.
  unfold same_key, key. rewrite andb_true_iff, !String.eqb_eq.
  split; [intros [-> ->]; reflexivity | intros [= -> ->]; auto].
Qed.

Lemma key_test_iff (r : formula_row) (k : string * string) :
  (String.eqb (fg_code r) (fst k) && String.eqb (rm_code r) (snd k))%bool = true
  <-> key r = k.
Proof.
  unfold key. rewrite andb_true_iff, !String.eqb_eq. destruct k as [a b].
  simpl. split; [intros [-> ->]; reflexivity | intros [= -> ->]; auto].
Qed.

Lemma group_add_keys (r : formula_row) (groups : list formula_row)
    (k : string * string) :
  In k (map key (group_add r groups)) <-> k = key r \/ In k (map key groups).
Proof.
  induction groups as [|g gs IH]; cbn [group_add map In].
  - change (key {| fg_code := fg_code r; rm_code := rm_code r;
                   quantity := Qred (quantity r) |}) with (key r).
    split; [intros [<- | []]; now left | intros [-> | []]; now left].
  - destruct (same_key g r) eqn:E; cbn [map In].
    + apply same_key_iff in E.
      change (key {| fg_code := fg_code g; rm_code := rm_code g;
                     quantity := Qred (quantity g + quantity r) |})
        with (key g).
      split; [intros [<- | H]; auto | intros [-> | [<- | H]]; auto].
    + rewrite IH. tauto.
Qed.

Lemma group_add_NoDup (r : formula_row) (groups : list formula_row) :
  List.NoDup (map key groups) -> List.NoDup (map key (group_add r groups)).
Proof.
  induction groups as [|g gs IH]; simpl; intros H.
  - constructor; [intros [] | constructor].
  - inversion H as [|x xs Hnin Hnd]; subst.
    destruct (same_key g r) eqn:E; simpl.
    + exact H.
    + constructor; [|now apply IH].
      rewrite group_add_keys. intros [Hk | Hin]; [|contradiction].
      assert (E' : same_key g r = true) by now apply same_key_iff.
      congruence.
Qed.

Lemma group_add_total (r : formula_row) (groups : list formula_row)
    (k : string * string) :
  total k (group_add r groups) == total k (r :: groups).
Proof.
  induction groups as [|g gs IH].
  - simpl. destruct (_ && _)%bool; [rewrite Qred_correct|]; reflexivity.
  - cbn [group_add]. destruct (same_key g r) eqn:E.
    + apply same_key_iff in E. cbn [total fg_code rm_code quantity].
      destruct (String.eqb (fg_code g) (fst k) && String.eqb (rm_code g) (snd k))%bool
        eqn:Eg.
      * assert (Er : (String.eqb (fg_code r) (fst k)
                      && String.eqb (rm_code r) (snd k))%bool = true).
        { apply key_test_iff. rewrite <- E. now apply key_test_iff. }
        rewrite Er, Qred_correct. ring.
      * assert (Er : (String.eqb (fg_code r) (fst k)
                      && String.eqb (rm_code r) (snd k))%bool = false).
        { apply not_true_is_false. intros Hr. apply key_test_iff in Hr.
          rewrite <- E in Hr. apply key_test_iff in Hr. congruence. }
        rewrite Er. reflexivity.
    + cbn [total] in *.
      destruct (String.eqb (fg_code g) (fst k) && String.eqb (rm_code g) (snd k))%bool;
        destruct (String.eqb (fg_code r) (fst k) && String.eqb (rm_code r) (snd k))%bool;
        rewrite IH; ring.
Qed.

Lemma insert_sorted_perm (r : formula_row) (l : list formula_row) :
  Permutation (insert_sorted r l) (r :: l).
Proof.
  induction l as [|x l IH]; simpl; [reflexivity|].
  destruct (key_leb r x); [reflexivity|].
  rewrite IH. apply perm_swap.
Qed.

Lemma sort_rows_perm (l : list formula_row) : Permutation (sort_rows l) l.
Proof.
  induction l as [|x l IH]; simpl; [reflexivity|].
  rewrite insert_sorted_perm. now constructor.
Qed.

Lemma total_perm (k : string * string) (l l' : list formula_row) :
  Permutation l l' -> total k l == total k l'.
Proof.
  induction 1 as [|x l l' _ IH|x y l|l l' l'' _ IH1 _ IH2]; simpl.
  - reflexivity.
  - destruct (_ && _)%bool; rewrite IH; reflexivity.
  - do 2 destruct (_ && _)%bool; ring.
  - now rewrite IH1.
Qed.

Lemma groups_fold (rows groups : list formula_row) :
  let out := fold_left (fun groups r => group_add r groups) rows groups in
  (List.NoDup (map key groups) -> List.NoDup (map key out)) /\
  (forall k, In k (map key out)
             <-> In k (map key rows) \/ In k (map key groups)) /\
  (forall k, total k out == total k rows + total k groups).
Proof.
  revert groups. induction rows as [|r rows IH]; intros groups; simpl.
  - split; [auto|]. split; [intuition auto | intros k; ring].
  - destruct (IH (group_add r groups)) as (H1 & H2 & H3).
    split; [|split].
    + intros H. apply H1. now apply group_add_NoDup.
    + intros k. rewrite H2, group_add_keys. intuition auto.
    + intros k. rewrite H3, group_add_total. simpl.
      destruct (_ && _)%bool; ring.
Qed.

Lemma groupby_sum_spec (rows : list formula_row) :
  List.NoDup (map key (groupby_sum rows)) /\
  (forall k, In k (map key (groupby_sum rows)) <-> In k (map key rows)) /\
  (forall k, total k (groupby_sum rows) == total k rows).
Proof.
  unfold groupby_sum.
  destruct (groups_fold rows []) as (H1 & H2 & H3).
  pose proof (sort_rows_perm
                (fold_left (fun groups r => group_add r groups) rows [])) as Hp.
  split; [|split].
  - eapply Permutation_NoDup; [apply Permutation_map; symmetry; exact Hp|].
    apply H1. constructor.
  - intros k. split; intros Hin.
    + apply (Permutation_in _ (Permutation_map key Hp)) in Hin.
      apply H2 in Hin as [Hin | []]. exact Hin.
    + apply (Permutation_in _ (Permutation_map key (Permutation_sym Hp))).
      apply H2. now left.
  - intros k. rewrite (total_perm k _ _ Hp), H3. simpl. ring.
Qed.

(** ** The replacement transform *)

Lemma replacement_map_snoc (rules : list replacement_rule) (r : replacement_rule) :
  replacement_map (rules ++ [r])
  = <[norm (old_rm_code r) := norm (new_rm_code r)]> (replacement_map rules).
Proof. unfold replacement_map. now rewrite fold_left_app. Qed.

Lemma replacement_map_from (rules : list replacement_rule)
    (m : gmap string string) (k : string) :
  fold_left (fun m row => <[norm (old_rm_code row) := norm (new_rm_code row)]> m)
            rules m !! k
  = match last_rule_for k rules with
    | Some n => Some n
    | None => m !! k
    end.
Proof.
  revert m. induction rules as [|r rules IH]; intros m; simpl; [reflexivity|].
  rewrite IH. destruct (last_rule_for k rules); [reflexivity|].
  destruct (String.eqb_spec (norm (old_rm_code r)) k) as [<- | Hne].
  - apply lookup_insert_eq.
  - now apply lookup_insert_ne.
Qed.

Lemma replacement_map_lookup (rules : list replacement_rule) (k : string) :
  replacement_map rules !! k = last_rule_for k rules.
Proof.
  unfold replacement_map. rewrite replacement_map_from.
  destruct (last_rule_for k rules); [reflexivity | apply lookup_empty].
Qed.

Lemma apply_rm_replacement_eq (rules : list replacement_rule)
    (formulas : list formula_row) :
  rules <> [] -> formulas <> [] ->
  apply_rm_replacement rules formulas
  = groupby_sum (map (rename_words rules) formulas).
Proof.
  intros Hr Hf. destruct rules as [|r rs]; [congruence|].
  destruct formulas as [|f fs]; [congruence|].
  unfold apply_rm_replacement. f_equal. apply map_ext. intros row.
  unfold rename_words, replace_code. rewrite replacement_map_lookup.
  destruct (last_rule_for _ _); reflexivity.
Qed.

Lemma replace_code_cases (rules : list replacement_rule) (x : string) :
  replace_code (replacement_map rules) x
  = match last_rule_for (norm x) rules with
    | Some n => n
    | None => norm x
    end.
Proof.
  unfold replace_code. rewrite replacement_map_lookup.
  destruct (last_rule_for _ _); reflexivity.
Qed.

Lemma replacement_merge_example (f a b : string) :
  norm a = a -> norm b = b -> a <> b ->
  apply_rm_replacement
    [ {| old_rm_code := a; new_rm_code := b |} ]
    [ {| fg_code := f; rm_code := a; quantity := 10 |};
      {| fg_code := f; rm_code := b; quantity := 5 |} ]
  = [ {| fg_code := f; rm_code := b; quantity := 15 |} ].
Proof.
  intros Ha Hb Hab.
  rewrite apply_rm_replacement_eq by discriminate.
  unfold rename_words. cbn [map fg_code rm_code quantity last_rule_for old_rm_code new_rm_code].
  rewrite Ha, Hb, String.eqb_refl.
  replace (String.eqb a b) with false by (symmetry; now apply String.eqb_neq).
  unfold groupby_sum. cbn [fold_left group_add same_key fg_code rm_code quantity].
  unfold same_key. cbn [fg_code rm_code].
  rewrite !String.eqb_refl. cbn [andb sort_rows fold_right insert_sorted].
  reflexivity.
Qed.

(** C7, as amended.  The replacement map is single-valued and a later rule
    for the same old code overrides an earlier one.  With rules and
    formulas at hand, each formula entry has its RM code normalised and
    sent through the map, an entry whose normalised code has no rule
    keeping that normalised code (its own code when the normaliser leaves
    it unchanged); the entries are then grouped by (FG, RM) with their
    quantities summed, one row per (FG, RM).  Formulas
    [(FG1,RM_A,10); (FG1,RM_B,5)] under the rule RM_A to RM_B give exactly
    [(FG1,RM_B,15)], and with no rule or no formula the input is returned
    unchanged. *)
Theorem replacement_transform (rules : list replacement_rule)
    (formulas : list formula_row) :
  (forall k, replacement_map rules !! k = last_rule_for k rules) /\
  (forall r, replacement_map (rules ++ [r]) !! norm (old_rm_code r)
             = Some (norm (new_rm_code r))) /\
  (forall x, replacement_map rules !! norm x = None ->
             replace_code (replacement_map rules) x = norm x /\
             (norm x = x -> replace_code (replacement_map rules) x = x)) /\
  (forall x n, replacement_map rules !! norm x = Some n ->
               replace_code (replacement_map rules) x = n) /\
  (rules <> [] ->
   let renamed := map (rename_words rules) formulas in
   let out := apply_rm_replacement rules formulas in
   List.NoDup (map key out) /\
   (forall k, In k (map key out) <-> In k (map key renamed)) /\
   (forall k, total k out == total k renamed)) /\
  (forall f a b, norm a = a -> norm b = b -> a <> b ->
     apply_rm_replacement
       [ {| old_rm_code := a; new_rm_code := b |} ]
       [ {| fg_code := f; rm_code := a; quantity := 10 |};
         {| fg_code := f; rm_code := b; quantity := 5 |} ]
     = [ {| fg_code := f; rm_code := b; quantity := 15 |} ]) /\
  apply_rm_replacement [] formulas = formulas /\
  apply_rm_replacement rules [] = [].
Proof.
  split; [apply replacement_map_lookup|].
  split; [intros r; rewrite replacement_map_snoc; apply lookup_insert_eq|].
  split; [|split; [|split; [|split; [|split]]]].
  - intros x Hx. unfold replace_code. rewrite Hx. simpl.
    split; [reflexivity | auto].
  - intros x n Hx. unfold replace_code. now rewrite Hx.
  - intros Hr renamed out. subst renamed out.
    destruct formulas as [|f fs].
    + destruct rules; [congruence|]. simpl.
      split; [constructor|]. split; [tauto | reflexivity].
    + rewrite apply_rm_replacement_eq by (assumption || discriminate).
      apply groupby_sum_spec.
  - apply replacement_merge_example.
  - destruct formulas; reflexivity.
  - destruct rules; reflexivity.
Qed.

Lemma replacement_transform_witness :
  apply_rm_replacement
    [ {| old_rm_code := "RM_A0000"; new_rm_code := "RM_B0000" |} ]
    [ {| fg_code := "FG100000"; rm_code := "RM_A0000"; quantity := 10 |};
      {| fg_code := "FG100000"; rm_code := "RM_B0000"; quantity := 5 |} ]
  = [ {| fg_code := "FG100000"; rm_code := "RM_B0000"; quantity := 15 |} ].
Proof.
  apply (proj1 (proj2 (proj2 (proj2 (proj2 (proj2 (replacement_transform
                 [] [])))))) "FG100000" "RM_A0000" "RM_B0000");
    [reflexivity | reflexivity | discriminate].
Defined.

(** C7 as stated fails: the code ["ABCDEFG "], which the normaliser
    produces from ["ABCDEFG HI"], has no rule, yet the entry does not come
    out with this code but with ["ABCDEFG0"]. *)
Lemma unmapped_code_is_renormalised :
  let rules := [ {| old_rm_code := "ZZZZZZZZ"; new_rm_code := "YYYYYYYY" |} ] in
  let formulas := [ {| fg_code := "FG100000"; rm_code := "ABCDEFG ";
                       quantity := 10 |} ] in
  norm "ABCDEFG HI" = "ABCDEFG " /\
  replacement_map rules !! "ABCDEFG " = None /\
  apply_rm_replacement rules formulas
  = [ {| fg_code := "FG100000"; rm_code := "ABCDEFG0"; quantity := 10 |} ] /\
  ~ In "ABCDEFG " (map rm_code (apply_rm_replacement rules formulas)).
Proof.
  cbv zeta. split; [reflexivity|]. split; [vm_compute; reflexivity|].
  split; [vm_compute; reflexivity|].
  vm_compute. intros [H | []]. discriminate H.
Qed.

(** ** More on the loop over the FIFO order *)

Lemma has_formula_true (formulas : list formula_row) (f : string) :
  has_formula formulas f = true <-> formula_of formulas f <> [].
Proof.
  unfold has_formula. destruct (formula_of formulas f);
    split; congruence.
Qed.

Lemma formula_of_in (formulas : list formula_row) (f : string)
    (row : formula_row) :
  In row (formula_of formulas f) <-> In row formulas /\ fg_code row = f.
Proof.
  unfold formula_of. rewrite filter_In, String.eqb_eq. reflexivity.
Qed.

Lemma allocation_loop_iterations (initial : gmap string Q)
    (formulas : list formula_row) (ecs : gmap string Q) (dp : nat)
    (order : list string) (st st' : run_state) :
  allocation_loop initial formulas ecs dp order st = Some st' ->
  exists more,
    iterations st' = (iterations st ++ more)%list /\
    map fg more = List.filter (has_formula formulas) order.
Proof.
  revert st. induction order as [|f order IH]; intros st H; simpl in H.
  - injection H as <-. exists []. now rewrite app_nil_r.
  - destruct (process_fg _ _ _ _ st f) as [st1|] eqn:E; simpl in H;
      [|discriminate].
    destruct (IH _ H) as (more & Hit & Hfg).
    apply process_fg_inv in E as [[He ->] | [Hne (l & Ha & Hit1 & _)]].
    + exists more. split; [assumption|]. simpl.
      unfold has_formula at 1. now rewrite He.
    + exists (l :: more). split.
      * rewrite Hit, Hit1, <- app_assoc. reflexivity.
      * simpl. apply has_formula_true in Hne. rewrite Hne.
        destruct (analyse_fg_inv _ _ _ _ _ _ _ Ha) as (_ & _ & -> & _).
        now rewrite Hfg.
Qed.

Lemma run_result_fgs (rm_stock : list stock_row)
    (formulas : list formula_row) (order : list string)
    (ecs : gmap string Q) (dp : nat) (st : run_state) :
  production_analysis rm_stock formulas order ecs dp = Some st ->
  map FG (results st) = List.filter (has_formula formulas) order.
Proof.
  intros H. unfold production_analysis in H.
  destruct (allocation_loop_iterations _ _ _ _ _ _ _ H) as (more & Hit & Hfg).
  simpl in Hit. subst more. unfold results. rewrite map_map. exact Hfg.
Qed.

(** X11. A run appends one result for each FG of the FIFO order that
    has formula rows, in the order of the FIFO list; an FG without formula
    rows is skipped and leaves no result. *)
Theorem results_follow_fifo_order (rm_stock : list stock_row)
    (formulas : list formula_row) (order : list string)
    (ecs : gmap string Q) (dp : nat) (st : run_state) :
  production_analysis rm_stock formulas order ecs dp = Some st ->
  map FG (results st) = List.filter (has_formula formulas) order /\
  (forall f, In f (map FG (results st)) <->
             In f order /\ formula_of formulas f <> []).
Proof.
  intros H. pose proof (run_result_fgs _ _ _ _ _ _ H) as E.
  split; [exact E|].
  intros f. rewrite E, filter_In, has_formula_true. reflexivity.
Qed.

Lemma results_follow_fifo_order_witness :
  exists st,
    production_analysis fifo_stock fifo_formulas
                        ["FG200000"; "FG300000"; "FG100000"] ∅ 3 = Some st /\
    map FG (results st) = ["FG200000"; "FG100000"].
Proof.
  destruct (run_is_Some fifo_stock fifo_formulas
              ["FG200000"; "FG300000"; "FG100000"] ∅ 3) as [st Hst].
  exists st. split; [exact Hst|].
  exact (proj1 (results_follow_fifo_order _ _ _ _ _ _ Hst)).
Defined.

(** *** The pool: codes and untouched entries *)

Lemma deplete_lookup_other (dp : nat) (ab : Z) (formula : list formula_row)
    (allocated : gmap string Q) (rm : string) :
  ~ In rm (formula_rms formula) ->
  deplete dp ab formula allocated !! rm = allocated !! rm.
Proof.
  unfold deplete. revert allocated.
  induction formula as [|row formula IH]; intros allocated Hnin; simpl;
    [reflexivity|].
  simpl in Hnin. rewrite IH by tauto.
  destruct (allocated !! norm (rm_code row)); [|reflexivity].
  apply lookup_insert_ne. tauto.
Qed.

Lemma deplete_is_Some (dp : nat) (ab : Z) (formula : list formula_row)
    (allocated : gmap string Q) (rm : string) :
  is_Some (deplete dp ab formula allocated !! rm) <-> is_Some (allocated !! rm).
Proof.
  unfold deplete. revert allocated.
  induction formula as [|row formula IH]; intros allocated; simpl;
    [reflexivity|].
  rewrite IH.
  destruct (allocated !! norm (rm_code row)) as [v|] eqn:E; [|reflexivity].
  destruct (decide (norm (rm_code row) = rm)) as [<- | Hne].
  - rewrite lookup_insert_eq, E. split; eauto.
  - now rewrite lookup_insert_ne.
Qed.

Lemma allocation_loop_invariant_in (P : run_state -> Prop)
    (initial : gmap string Q) (formulas : list formula_row)
    (ecs : gmap string Q) (dp : nat) (order : list string) :
  (forall st f st', In f order -> P st ->
     process_fg initial formulas ecs dp st f = Some st' -> P st') ->
  forall st st', P st ->
    allocation_loop initial formulas ecs dp order st = Some st' -> P st'.
Proof.
  intros Hstep.
  assert (G : forall todo, (forall f, In f todo -> In f order) ->
              forall st st', P st ->
                allocation_loop initial formulas ecs dp todo st = Some st' ->
                P st').
  { induction todo as [|f todo IH]; intros Hsub st st' HP H; simpl in H.
    - now injection H as <-.
    - destruct (process_fg _ _ _ _ st f) as [st1|] eqn:E; simpl in H;
        [|discriminate].
      apply (IH (fun g Hg => Hsub g (or_intror Hg)) st1 st'); [|exact H].
      apply (Hstep st f st1); auto. apply Hsub. now left. }
  apply G. auto.
Qed.

Lemma stock_dict_is_Some (rm_stock : list stock_row) (dp : nat) (rm : string) :
  is_Some (stock_dict rm_stock dp !! rm)
  <-> In rm (map stock_rm_code rm_stock).
Proof.
  unfold stock_dict. rewrite lookup_fmap, fmap_is_Some.
  assert (G : forall m : gmap string Q,
             is_Some (fold_left
                        (fun m r => <[stock_rm_code r := stock_quantity r]> m)
                        rm_stock m !! rm)
             <-> In rm (map stock_rm_code rm_stock) \/ is_Some (m !! rm)).
  { induction rm_stock as [|r rs IH]; intros m; simpl; [tauto|].
    rewrite IH. destruct (decide (stock_rm_code r = rm)) as [-> | Hne].
    - rewrite lookup_insert_eq.
      split; [intros _; left; now left | intros _; right; eauto].
    - rewrite lookup_insert_ne by assumption. tauto. }
  rewrite G, lookup_empty.
  split; [intros [Hi | [x Hx]]; [exact Hi | discriminate] | now left].
Qed.

(** X12. Depletion only rewrites entries the pool already holds: the
    allocated pool ends with exactly the RM codes of the stock table, and
    an RM that no formula row of an FG of the FIFO order names keeps its
    initial quantity. *)
Theorem pool_codes_and_untouched_entries (rm_stock : list stock_row)
    (formulas : list formula_row) (order : list string)
    (ecs : gmap string Q) (dp : nat) (st : run_state) :
  production_analysis rm_stock formulas order ecs dp = Some st ->
  (forall rm, is_Some (allocated_stock st !! rm)
              <-> In rm (map stock_rm_code rm_stock)) /\
  (forall rm,
     (forall row, In row formulas -> In (fg_code row) order ->
                  norm (rm_code row) <> rm) ->
     allocated_stock st !! rm = stock_dict rm_stock dp !! rm).
Proof.
  intros H. unfold production_analysis in H.
  pose proof (stock_dict_is_Some rm_stock dp) as Hdom.
  split.
  - intros rm. rewrite <- Hdom.
    apply (allocation_loop_invariant
             (fun s => is_Some (allocated_stock s !! rm)
                       <-> is_Some (stock_dict rm_stock dp !! rm))
             _ _ _ _) with (order := order) (st' := st) in H;
      [exact H | | simpl; reflexivity].
    intros s f s' HP Hs.
    apply process_fg_inv in Hs as [[_ ->] | [_ (l & _ & _ & _ & ->)]];
      [exact HP|].
    destruct (_ && _)%bool; [|exact HP]. now rewrite deplete_is_Some.
  - intros rm Hrm.
    apply (allocation_loop_invariant_in
             (fun s => allocated_stock s !! rm = stock_dict rm_stock dp !! rm)
             _ _ _ _) with (order := order) (st' := st) in H;
      [exact H | | simpl; reflexivity].
    intros s f s' Hf HP Hs.
    apply process_fg_inv in Hs as [[_ ->] | [_ (l & _ & _ & _ & ->)]];
      [exact HP|].
    destruct (_ && _)%bool; [|exact HP].
    rewrite deplete_lookup_other; [exact HP|].
    unfold formula_rms. rewrite in_map_iff. intros (row & Hrow & Hin).
    apply formula_of_in in Hin as [Hin Hfg].
    apply (Hrm row Hin); [now rewrite Hfg | exact Hrow].
Qed.

Lemma pool_codes_and_untouched_entries_witness :
  exists st,
    production_analysis
      ({| stock_rm_code := "RM_Y0000"; stock_quantity := 7 |} :: fifo_stock)
      fifo_formulas ["FG100000"; "FG200000"] ∅ 3 = Some st /\
    allocated_stock st !! "RM_Y0000" = Some 7.
Proof.
  destruct (run_is_Some
              ({| stock_rm_code := "RM_Y0000"; stock_quantity := 7 |}
                 :: fifo_stock)
              fifo_formulas ["FG100000"; "FG200000"] ∅ 3) as [st Hst].
  exists st. split; [exact Hst|].
  rewrite (proj2 (pool_codes_and_untouched_entries _ _ _ _ _ _ Hst)
             "RM_Y0000").
  - vm_compute. reflexivity.
  - intros row [<- | [<- | []]] _; vm_compute; discriminate.
Defined.

(** *** The shortage ledger *)

Lemma allocation_loop_ledger (initial : gmap string Q)
    (formulas : list formula_row) (ecs : gmap string Q) (dp : nat)
    (order : list string) (st st' : run_state) :
  allocation_loop initial formulas ecs dp order st = Some st' ->
  List.NoDup order ->
  (forall f, In f order -> ~ In f (map fg (iterations st))) ->
  (forall l, In l (iterations st) ->
     shortage_details st !! fg l = Some (shortage_breakdown l)) ->
  (forall f, is_Some (shortage_details st !! f)
             -> In f (map fg (iterations st))) ->
  (forall l, In l (iterations st') ->
     shortage_details st' !! fg l = Some (shortage_breakdown l)) /\
  (forall f, is_Some (shortage_details st' !! f)
             -> In f (map fg (iterations st'))).
Proof.
  revert st. induction order as [|f order IH];
    intros st H Hnd Hfresh Hold Hdom; simpl in H.
  - injection H as <-. auto.
  - destruct (process_fg _ _ _ _ st f) as [st1|] eqn:E; simpl in H;
      [|discriminate].
    inversion Hnd as [|x xs Hnin Hnd']; subst.
    apply process_fg_inv in E as [[_ ->] | [_ (l & Ha & Hit & Hsd & _)]].
    + apply (IH st H Hnd'); auto. intros g Hg. apply Hfresh. now right.
    + destruct (analyse_fg_inv _ _ _ _ _ _ _ Ha) as (_ & _ & Hfg & _).
      apply (IH st1 H Hnd').
      * intros g Hg. rewrite Hit, map_app, in_app_iff. simpl.
        intros [Hin | [Heq | []]].
        -- apply (Hfresh g); [now right | exact Hin].
        -- rewrite Hfg in Heq. subst g. contradiction.
      * intros l' Hl'. rewrite Hit in Hl'. apply in_app_iff in Hl'.
        rewrite Hsd. destruct Hl' as [Hl' | [<- | []]].
        -- rewrite lookup_insert_ne; [now apply Hold|].
           intros Heq. apply (Hfresh f); [now left|].
           rewrite Heq. now apply in_map.
        -- rewrite Hfg. apply lookup_insert_eq.
      * intros g. rewrite Hsd, Hit, map_app, in_app_iff. simpl.
        destruct (decide (f = g)) as [<- | Hne].
        -- intros _. right. left. exact Hfg.
        -- rewrite lookup_insert_ne by assumption. intros Hg. left.
           now apply Hdom.
Qed.

(** X19. When the FIFO order has no repeated FG (it is the key list
    of a dict), the shortage ledger holds, for each result, the shortage
    breakdown of its FG, and holds no entry for any other FG: not for an
    FG outside the order nor for one without formula rows. *)
Theorem shortage_details_of_run (rm_stock : list stock_row)
    (formulas : list formula_row) (order : list string)
    (ecs : gmap string Q) (dp : nat) (st : run_state) :
  List.NoDup order ->
  production_analysis rm_stock formulas order ecs dp = Some st ->
  (forall l, In l (iterations st) ->
     shortage_details st !! fg l = Some (shortage_breakdown l)) /\
  (forall f, is_Some (shortage_details st !! f)
             <-> In f order /\ formula_of formulas f <> []).
Proof.
  intros Hnd H.
  assert (Hres : forall f, In f (map FG (results st)) <->
                           In f order /\ formula_of formulas f <> []).
  { intros f. rewrite (run_result_fgs _ _ _ _ _ _ H), filter_In,
      has_formula_true. reflexivity. }
  unfold production_analysis in H.
  destruct (allocation_loop_ledger _ _ _ _ _ _ _ H Hnd) as [H1 H2]; simpl.
  - auto.
  - intros l [].
  - intros f. rewrite lookup_empty. intros [x Hx]. discriminate.
  - split; [exact H1|]. intros f.
    assert (E : map fg (iterations st) = map FG (results st))
      by (unfold results; now rewrite map_map).
    split.
    + intros Hf. apply Hres. rewrite <- E. now apply H2.
    + intros Hf. apply Hres in Hf. rewrite <- E in Hf.
      apply in_map_iff in Hf as (l & <- & Hl). rewrite (H1 l Hl). eauto.
Qed.

Lemma shortage_details_of_run_witness :
  exists st,
    production_analysis fifo_stock fifo_formulas
                        ["FG100000"; "FG200000"] ∅ 3 = Some st /\
    forall l, In l (iterations st) ->
      shortage_details st !! fg l = Some (shortage_breakdown l).
Proof.
  destruct (run_is_Some fifo_stock fifo_formulas
              ["FG100000"; "FG200000"] ∅ 3) as [st Hst].
  exists st. split; [exact Hst|].
  refine (proj1 (shortage_details_of_run _ _ _ _ _ _ _ Hst)).
  repeat constructor; simpl; intros H;
    repeat (destruct H as [H | H]; [discriminate H|]); exact H.
Defined.

(** *** A shortage consumes nothing *)




(** *** The FG served first *)









(** *** An empty shortage breakdown *)

Lemma auto_row_lines (allocated : gmap string Q) (dp : nat)
    (row : formula_row) (r : row_result) :
  auto_row allocated dp row = Some r ->
  (rr_lines r = [] <-> (1 <= rr_batches r)%Z) /\
  (rr_lines r = [] -> rr_missing r = []).
Proof.
  unfold auto_row.
  destruct (Qleb (py_round _ _) 0) eqn:E1;
    [intros [= <-]; simpl; split; [split; [discriminate | lia] | discriminate]|].
  destruct (Qleb (get0 _ _) 0) eqn:E2;
    [intros [= <-]; simpl; split; [split; [discriminate | lia] | discriminate]|].
  apply Qleb_false in E1, E2.
  rewrite py_floordiv_pos by assumption.
  pose proof (floor_div_nonneg (get0 allocated (norm (rm_code row)))
                (py_round (quantity row) dp) E1 (Qlt_le_weak _ _ E2)) as H0.
  set (m := Qfloor (get0 allocated (norm (rm_code row))
                    / py_round (quantity row) dp)) in *.
  cbn [mbind option_bind].
  destruct (Z.eqb_spec m 0) as [Hz | Hz];
    intros [= <-]; cbn [rr_batches rr_lines rr_missing].
  - split; [split; [discriminate | lia] | discriminate].
  - split; [split; [lia | reflexivity] | reflexivity].
Qed.

Lemma expected_row_lines (allocated : gmap string Q) (dp : nat) (eb : Z)
    (row : formula_row) (r : row_result) :
  (1 <= eb)%Z ->
  expected_row allocated dp eb row = Some r ->
  (rr_lines r = [] <-> (eb <= rr_batches r)%Z) /\
  (rr_lines r = [] -> rr_missing r = []).
Proof.
  intros Heb. unfold expected_row.
  destruct (Qleb (_ * _) 0) eqn:E1;
    [intros [= <-]; simpl; split; [split; [discriminate | lia] | discriminate]|].
  destruct (Qleb (get0 _ _) 0) eqn:E2;
    [intros [= <-]; simpl; split; [split; [discriminate | lia] | discriminate]|].
  destruct (Qleb (_ * _) (get0 _ _)) eqn:E3;
    [intros [= <-]; simpl; split; [split; [lia | reflexivity] | reflexivity]|].
  apply Qleb_false in E1. apply total_required_pos in E1; [|assumption].
  rewrite py_floordiv_pos by assumption.
  set (m := Qfloor (get0 allocated (norm (rm_code row))
                    / py_round (quantity row) dp)) in *.
  cbn [mbind option_bind].
  destruct (Z.ltb_spec m eb) as [Hz | Hz];
    intros [= <-]; cbn [rr_batches rr_lines rr_missing].
  - split; [split; [discriminate | lia] | discriminate].
  - split; [split; [lia | reflexivity] | reflexivity].
Qed.

Lemma concat_nil_iff {A : Type} (ls : list (list A)) :
  concat ls = [] <-> forall l, In l ls -> l = [].
Proof.
  induction ls as [|x ls IH]; simpl.
  - split; [intros _ l [] | reflexivity].
  - split.
    + intros H. apply app_eq_nil in H as [-> H]. intros l [<- | Hl]; [reflexivity|].
      now apply IH.
    + intros H. rewrite (H x) by now left. apply IH. intros l Hl. apply H.
      now right.
Qed.

Lemma list_min0_ge (k : Z) (l : list Z) :
  l <> [] -> ((k <= list_min0 l)%Z <-> forall x, In x l -> (k <= x)%Z).
Proof.
  intros Hne. split.
  - intros H x Hx. pose proof (list_min0_le_all l x Hx). lia.
  - intros H. apply H. now apply list_min0_in.
Qed.

Lemma actual_rows_lines (allocated : gmap string Q) (dp : nat) (ec : Q)
    (formula : list formula_row) (rows : list row_result) :
  formula <> [] ->
  actual_rows allocated dp ec formula = Some rows ->
  let k := if Qltb 0 ec then target_batches ec else 1%Z in
  rows <> [] /\
  (concat (map rr_lines rows) = []
   <-> (k <= list_min0 (map rr_batches rows))%Z) /\
  (concat (map rr_lines rows) = [] -> concat (map rr_missing rows) = []).
Proof.
  intros Hne H k.
  assert (Hrows : Forall (fun r =>
            (rr_lines r = [] <-> (k <= rr_batches r)%Z) /\
            (rr_lines r = [] -> rr_missing r = [])) rows /\ rows <> []).
  { assert (G : forall (f : formula_row -> option row_result) fs rs,
               (forall row r, f row = Some r ->
                  (rr_lines r = [] <-> (k <= rr_batches r)%Z) /\
                  (rr_lines r = [] -> rr_missing r = [])) ->
               fs <> [] -> mapM f fs = Some rs ->
               Forall (fun r =>
                 (rr_lines r = [] <-> (k <= rr_batches r)%Z) /\
                 (rr_lines r = [] -> rr_missing r = [])) rs /\ rs <> []).
    { clear. intros f fs rs Hf Hfs Hm. apply mapM_Some in Hm. split.
      - clear Hfs. induction Hm as [|row r fs rs Hrow _ IH];
          constructor; [exact (Hf _ _ Hrow) | exact IH].
      - destruct Hm; [congruence | discriminate]. }
    unfold actual_rows in H. subst k. destruct (Qltb 0 ec).
    - apply (G _ _ _ (fun row r => expected_row_lines allocated dp _ row r
                                     (target_batches_ge1 ec)) Hne H).
    - apply (G _ _ _ (auto_row_lines allocated dp) Hne H). }
  destruct Hrows as [Hall Hrne]. rewrite Forall_forall in Hall.
  split; [exact Hrne|].
  assert (Hbne : map rr_batches rows <> [])
    by (destruct rows; [congruence | discriminate]).
  split.
  - rewrite concat_nil_iff, (list_min0_ge k _ Hbne). split.
    + intros Hl x Hx. apply in_map_iff in Hx as (r & <- & Hr).
      apply (Hall r); [now apply list_elem_of_In|].
      apply Hl. now apply in_map.
    + intros Hb l Hl. apply in_map_iff in Hl as (r & <- & Hr).
      apply (Hall r); [now apply list_elem_of_In|].
      apply Hb. now apply in_map.
  - rewrite !concat_nil_iff. intros Hl l Hin.
    apply in_map_iff in Hin as (r & <- & Hr).
    apply (Hall r); [now apply list_elem_of_In|].
    apply Hl. now apply in_map.
Qed.

(** X17. What an empty shortage breakdown means.  In auto mode a
    result is Ready exactly when its breakdown is empty; with an expected
    capacity set the breakdown is empty exactly when the full target is
    met.  In both modes an empty breakdown comes with no missing RM and a
    Ready status. *)
Theorem empty_breakdown_meaning (rm_stock : list stock_row)
    (formulas : list formula_row) (order : list string)
    (ecs : gmap string Q) (dp : nat) (st : run_state) :
  production_analysis rm_stock formulas order ecs dp = Some st ->
  forall l, In l (iterations st) ->
    (expected_capacity l <= 0 ->
     (status l = "✅ Ready"%string <-> shortage_breakdown l = [])) /\
    (0 < expected_capacity l ->
     (shortage_breakdown l = []
      <-> actual_batches l = target_batches (expected_capacity l))) /\
    (shortage_breakdown l = [] ->
     missing_rms l = [] /\ Missing (result_of l) = "None"%string /\
     status l = "✅ Ready"%string).
Proof.
  intros Hst l Hl.
  destruct (run_analysed _ _ _ _ _ _ _ Hst Hl) as (allocated & _ & Hne & Ha).
  destruct (analyse_fg_inv _ _ _ _ _ _ _ Ha)
    as (rows & Hrows & _ & Hec & _ & _ & Hposs & Hmiss & Hsb & Hact & Hcap
        & Hstat).
  destruct (actual_rows_lines _ _ _ _ _ Hne Hrows) as (Hrne & Hiff & Himp).
  rewrite <- Hsb, <- Hposs in Hiff. rewrite <- Hsb, <- Hmiss in Himp.
  rewrite <- Hec in *.
  pose proof (target_batches_ge1 (expected_capacity l)) as Ht.
  change "✅ Ready"%string with status_ready.
  assert (Hready : status l = status_ready <-> (1 <= actual_batches l)%Z).
  { rewrite Hstat, Hcap.
    destruct (Z.leb_spec 25 (actual_batches l * 25)); split; intros HH;
      try reflexivity; try lia.
    exfalso. exact (status_ready_ne_shortage (eq_sym HH)). }
  split; [|split].
  - intros Hauto. apply Qltb_false in Hauto. rewrite Hauto in Hiff, Hact.
    rewrite Hready, Hiff, Hact. reflexivity.
  - intros Hexp. apply Qltb_true in Hexp. rewrite Hexp in Hiff, Hact.
    rewrite Hiff, Hact. lia.
  - intros Hnil. split; [now apply Himp|]. split.
    + unfold result_of. cbn [Missing]. now rewrite (Himp Hnil).
    + apply Hready. apply Hiff in Hnil. rewrite Hact.
      destruct (Qltb 0 (expected_capacity l)); lia.
Qed.

Lemma empty_breakdown_meaning_witness :
  exists st,
    production_analysis fifo_stock fifo_formulas
                        ["FG100000"; "FG200000"] ∅ 3 = Some st /\
    forall l, In l (iterations st) -> shortage_breakdown l = [] ->
      status l = "✅ Ready"%string.
Proof.
  destruct (run_is_Some fifo_stock fifo_formulas
              ["FG100000"; "FG200000"] ∅ 3) as [st Hst].
  exists st. split; [exact Hst|].
  intros l Hl Hnil.
  exact (proj2 (proj2 (proj2 (proj2
           (empty_breakdown_meaning _ _ _ _ _ _ Hst l Hl)) Hnil))).
Defined.

(** *** Quantities that are multiples of the precision *)

Lemma rounded_iff (x : Q) (dp : nat) :
  rounded x dp <-> exists n : Z, x == inject_Z n / inject_Z (pow10 dp).
Proof.
  unfold rounded. pose proof (pow10_Qpos dp) as Hp. split.
  - intros H. exists (round_half_even (x * inject_Z (pow10 dp))).
    rewrite <- H at 1. apply py_round_eq.
  - intros [n Hn]. rewrite py_round_eq.
    assert (E : x * inject_Z (pow10 dp) == inject_Z n)
      by (rewrite Hn; field; lra).
    rewrite (round_half_even_comp _ _ E), round_half_even_Z. now symmetry.
Qed.

Lemma rounded_py_round (x : Q) (dp : nat) : rounded (py_round x dp) dp.
Proof. apply py_round_idem. Qed.

Lemma rounded_mult_Z (x : Q) (k : Z) (dp : nat) :
  rounded x dp -> rounded (x * inject_Z k) dp.
Proof.
  rewrite !rounded_iff. intros [n Hn]. exists (n * k)%Z.
  pose proof (pow10_Qpos dp). rewrite Hn, inject_Z_mult. field. lra.
Qed.

Lemma rounded_minus (x y : Q) (dp : nat) :
  rounded x dp -> rounded y dp -> rounded (x - y) dp.
Proof.
  rewrite !rounded_iff. intros [n Hn] [m Hm]. exists (n - m)%Z.
  pose proof (pow10_Qpos dp).
  rewrite Hn, Hm. unfold Z.sub. rewrite inject_Z_plus, inject_Z_opp.
  field. lra.
Qed.

#[local] Instance py_round_comp : Proper (Qeq ==> eq ==> Qeq) py_round.
Proof.
  intros x y Hxy n m <-. rewrite !py_round_eq.
  assert (E : x * inject_Z (pow10 n) == y * inject_Z (pow10 n))
    by now rewrite Hxy.
  now rewrite (round_half_even_comp _ _ E).
Qed.

Lemma depleted_value (v q : Q) (ab : Z) (dp : nat) :
  rounded v dp -> rounded q dp ->
  py_round (v - py_round (q * inject_Z ab) dp) dp == v - q * inject_Z ab.
Proof.
  intros Hv Hq.
  pose proof (rounded_mult_Z q ab dp Hq) as Hm. unfold rounded in Hm.
  rewrite Hm. apply (rounded_minus v (q * inject_Z ab) dp Hv).
  exact Hm.
Qed.

Lemma floor_div_mult_le (a b : Q) :
  0 < b -> b * inject_Z (Qfloor (a / b)) <= a.
Proof.
  intros Hb. pose proof (Qfloor_le (a / b)) as H.
  assert (E : a == b * (a / b)) by (field; lra).
  rewrite E at 2. apply Qmult_le_l; assumption.
Qed.

(** *** What a depletion takes *)

Lemma deplete_rounded (dp : nat) (ab : Z) (formula : list formula_row)
    (allocated : gmap string Q) :
  pool_rounded allocated dp -> pool_rounded (deplete dp ab formula allocated) dp.
Proof.
  unfold deplete. revert allocated.
  induction formula as [|row formula IH]; intros allocated Hr; simpl;
    [assumption|].
  apply IH. destruct (allocated !! norm (rm_code row)) eqn:E; [|assumption].
  intros rm. unfold get0. destruct (decide (norm (rm_code row) = rm)) as [<-|Hne].
  - rewrite lookup_insert_eq. simpl. apply py_round_idem.
  - rewrite lookup_insert_ne by assumption. apply Hr.
Qed.

Lemma deplete_takes (dp : nat) (ab : Z) (formula : list formula_row)
    (allocated : gmap string Q) (rm : string) :
  pool_rounded allocated dp ->
  (forall row, In row formula -> rounded (quantity row) dp) ->
  is_Some (allocated !! rm) ->
  get0 (deplete dp ab formula allocated) rm
  == get0 allocated rm - per_batch rm formula * inject_Z ab.
Proof.
  unfold deplete. revert allocated.
  induction formula as [|row formula IH]; intros allocated Hr Hq Hin; simpl.
  - ring.
  - destruct (allocated !! norm (rm_code row)) as [v|] eqn:E.
    + rewrite IH.
      * unfold get0 at 1.
        destruct (String.eqb_spec (norm (rm_code row)) rm) as [<- | Hne].
        -- rewrite lookup_insert_eq. simpl.
           rewrite depleted_value.
           ++ unfold get0. rewrite E. simpl. ring.
           ++ specialize (Hr (norm (rm_code row))). unfold get0 in Hr.
              rewrite E in Hr. exact Hr.
           ++ apply Hq. now left.
        -- rewrite lookup_insert_ne by assumption. reflexivity.
      * intros k. unfold get0.
        destruct (decide (norm (rm_code row) = k)) as [<- | Hne].
        -- rewrite lookup_insert_eq. simpl. apply py_round_idem.
        -- rewrite lookup_insert_ne by assumption. apply Hr.
      * intros r Hr'. apply Hq. now right.
      * destruct (decide (norm (rm_code row) = rm)) as [<- | Hne].
        -- rewrite lookup_insert_eq. eauto.
        -- now rewrite lookup_insert_ne.
    + rewrite IH; try assumption; [|intros r Hr'; apply Hq; now right].
      destruct (String.eqb_spec (norm (rm_code row)) rm) as [<- | Hne];
        [|reflexivity].
      rewrite E in Hin. destruct Hin as [x Hx]. discriminate.
Qed.

Lemma consumed_app (formulas : list formula_row) (rm : string)
    (a b : list fg_locals) :
  consumed formulas rm (a ++ b)
  == consumed formulas rm a + consumed formulas rm b.
Proof.
  induction a as [|l a IH]; simpl; [ring|]. rewrite IH. ring.
Qed.

(** X13. Stock is neither created nor lost.  When every formula
    quantity is a multiple of the precision, the allocated pool ends, for
    each RM code of the stock table, with the initial quantity minus what
    the results take: for each result with batches, its batches times the
    quantities of the formula rows of its FG that carry this RM. *)
Theorem stock_balance (rm_stock : list stock_row)
    (formulas : list formula_row) (order : list string)
    (ecs : gmap string Q) (dp : nat) (st : run_state) :
  (forall row, In row formulas -> rounded (quantity row) dp) ->
  production_analysis rm_stock formulas order ecs dp = Some st ->
  forall rm, In rm (map stock_rm_code rm_stock) ->
    get0 (allocated_stock st) rm
    == get0 (stock_dict rm_stock dp) rm - consumed formulas rm (iterations st).
Proof.
  intros Hq H rm Hrm. unfold production_analysis in H.
  apply stock_dict_is_Some with (dp := dp) in Hrm.
  pose proof (stock_dict_rounded rm_stock dp) as Hr0.
  set (initial := stock_dict rm_stock dp) in *.
  apply (allocation_loop_invariant
           (fun s => pool_rounded (allocated_stock s) dp /\
                     is_Some (allocated_stock s !! rm) /\
                     get0 (allocated_stock s) rm
                     == get0 initial rm - consumed formulas rm (iterations s))
           _ _ _ _) with (order := order) (st' := st) in H.
  - apply H.
  - intros s f s' (HR & HS & HB) Hs.
    apply process_fg_inv in Hs as [[_ ->] | [_ (l & Ha & Hit & _ & Hal)]];
      [auto|].
    destruct (analyse_fg_inv _ _ _ _ _ _ _ Ha)
      as (rows & _ & Hfg & _ & _ & _ & _ & _ & _ & Hact & Hcap & Hstat).
    rewrite Hal, Hit, consumed_app. cbn [consumed]. rewrite Hfg.
    assert (Hready : (0 <? actual_batches l)%Z = true ->
                     String.eqb (status l) status_ready = true).
    { intros Hpos. apply Z.ltb_lt in Hpos. rewrite Hstat, Hcap.
      replace (25 <=? actual_batches l * 25)%Z with true
        by (symmetry; apply Z.leb_le; lia).
      reflexivity. }
    destruct (0 <? actual_batches l)%Z eqn:Epos.
    + rewrite (Hready eq_refl). cbn [andb].
      split; [now apply deplete_rounded|].
      split; [now apply deplete_is_Some|].
      rewrite deplete_takes; try assumption.
      * rewrite HB. ring.
      * intros row Hrow. apply Hq. now apply formula_of_in in Hrow.
    + cbn [andb]. split; [assumption|]. split; [assumption|].
      rewrite HB. ring.
  - simpl. split; [exact Hr0|]. split; [exact Hrm|]. ring.
Qed.

Lemma fifo_formulas_rounded (row : formula_row) :
  In row fifo_formulas -> rounded (quantity row) 3.
Proof. intros [<- | [<- | []]]; vm_compute; reflexivity. Qed.

Lemma stock_balance_witness :
  exists st,
    production_analysis fifo_stock fifo_formulas
                        ["FG100000"; "FG200000"] ∅ 3 = Some st /\
    get0 (allocated_stock st) "RM_X0000"
    == get0 (stock_dict fifo_stock 3) "RM_X0000"
       - consumed fifo_formulas "RM_X0000" (iterations st).
Proof.
  destruct (run_is_Some fifo_stock fifo_formulas
              ["FG100000"; "FG200000"] ∅ 3) as [st Hst].
  exists st. split; [exact Hst|].
  apply (stock_balance fifo_stock fifo_formulas _ _ 3 st
           fifo_formulas_rounded Hst).
  simpl. now left.
Defined.

(** *** The pool stays non-negative *)

Lemma auto_row_supports (allocated : gmap string Q) (dp : nat)
    (row : formula_row) (r : row_result) (ab : Z) :
  auto_row allocated dp row = Some r ->
  (1 <= ab <= rr_batches r)%Z ->
  py_round (quantity row) dp * inject_Z ab
  <= get0 allocated (norm (rm_code row)).
Proof.
  unfold auto_row.
  set (req := py_round (quantity row) dp).
  set (avail := get0 allocated (norm (rm_code row))).
  destruct (Qleb req 0) eqn:E1; [intros [= <-]; simpl; lia|].
  destruct (Qleb avail 0) eqn:E2; [intros [= <-]; simpl; lia|].
  apply Qleb_false in E1, E2.
  rewrite py_floordiv_pos by assumption.
  pose proof (floor_div_mult_le avail req E1) as Hm.
  set (m := Qfloor (avail / req)) in *. cbn [mbind option_bind].
  intros Hr Hab.
  assert (Hb : rr_batches r = m)
    by (destruct (m =? 0)%Z; injection Hr as <-; reflexivity).
  rewrite Hb in Hab.
  assert (Hk : inject_Z ab <= inject_Z m) by (rewrite <- Zle_Qle; lia).
  nra.
Qed.

Lemma expected_row_supports (allocated : gmap string Q) (dp : nat) (eb : Z)
    (row : formula_row) (r : row_result) (ab : Z) :
  (1 <= eb)%Z ->
  expected_row allocated dp eb row = Some r ->
  (1 <= ab <= rr_batches r)%Z -> (ab <= eb)%Z ->
  py_round (quantity row) dp * inject_Z ab
  <= get0 allocated (norm (rm_code row)).
Proof.
  intros Heb. unfold expected_row.
  set (req := py_round (quantity row) dp).
  set (avail := get0 allocated (norm (rm_code row))).
  destruct (Qleb (req * inject_Z eb) 0) eqn:E1; [intros [= <-]; simpl; lia|].
  destruct (Qleb avail 0) eqn:E2; [intros [= <-]; simpl; lia|].
  apply Qleb_false in E1, E2.
  pose proof (total_required_pos _ _ Heb E1) as Hreq.
  destruct (Qleb (req * inject_Z eb) avail) eqn:E3.
  - apply Qleb_true in E3. intros _ _ Hab.
    assert (Hk : inject_Z ab <= inject_Z eb) by (rewrite <- Zle_Qle; lia).
    nra.
  - rewrite py_floordiv_pos by assumption.
    pose proof (floor_div_mult_le avail req Hreq) as Hm.
    set (m := Qfloor (avail / req)) in *. cbn [mbind option_bind].
    intros Hr Hab _.
    assert (Hb : rr_batches r = m)
      by (destruct (m <? eb)%Z; injection Hr as <-; reflexivity).
    rewrite Hb in Hab.
    assert (Hk : inject_Z ab <= inject_Z m) by (rewrite <- Zle_Qle; lia).
    nra.
Qed.

Lemma actual_rows_support (allocated : gmap string Q) (dp : nat) (ec : Q)
    (formula : list formula_row) (rows : list row_result) (ab : Z) :
  actual_rows allocated dp ec formula = Some rows ->
  (1 <= ab)%Z -> (ab <= list_min0 (map rr_batches rows))%Z ->
  (Qltb 0 ec = true -> (ab <= target_batches ec)%Z) ->
  forall row, In row formula ->
    py_round (quantity row) dp * inject_Z ab
    <= get0 allocated (norm (rm_code row)).
Proof.
  unfold actual_rows. intros H H1 Hmin Ht.
  assert (Hall : forall r, In r rows -> (ab <= rr_batches r)%Z).
  { intros r Hr. pose proof (list_min0_le_all (map rr_batches rows)
      (rr_batches r) (in_map rr_batches rows r Hr)). lia. }
  clear Hmin.
  destruct (Qltb 0 ec); apply mapM_Some in H;
    induction H as [|row r formula rows Hrow _ IH]; intros x [];
    subst; try (apply IH; [intros; apply Hall; now right | assumption]).
  - apply (expected_row_supports allocated dp (target_batches ec) x r ab
             (target_batches_ge1 ec) Hrow); [|now apply Ht].
    split; [assumption|]. apply Hall. now left.
  - apply (auto_row_supports allocated dp x r ab Hrow).
    split; [assumption|]. apply Hall. now left.
Qed.

Lemma deplete_nonneg (dp : nat) (ab : Z) (formula : list formula_row)
    (allocated : gmap string Q) :
  List.NoDup (formula_rms formula) ->
  (forall row, In row formula ->
     rounded (quantity row) dp /\
     quantity row * inject_Z ab <= get0 allocated (norm (rm_code row))) ->
  (forall rm, 0 <= get0 allocated rm) ->
  forall rm, 0 <= get0 (deplete dp ab formula allocated) rm.
Proof.
  unfold deplete. revert allocated.
  induction formula as [|row formula IH]; intros allocated Hnd Hrows H0;
    simpl; [assumption|].
  inversion Hnd as [|x xs Hnin Hnd']; subst.
  destruct (Hrows row (or_introl eq_refl)) as [Hq Hle].
  destruct (allocated !! norm (rm_code row)) as [v|] eqn:E.
  - apply IH; [assumption| |].
    + intros r Hr. destruct (Hrows r (or_intror Hr)) as [Hq' Hle'].
      split; [assumption|]. unfold get0. rewrite lookup_insert_ne; [exact Hle'|].
      intros Heq. apply Hnin. unfold formula_rms. rewrite Heq.
      now apply (in_map (fun row => norm (rm_code row))).
    + intros rm. unfold get0.
      destruct (decide (norm (rm_code row) = rm)) as [<- | Hne].
      * rewrite lookup_insert_eq. simpl. apply py_round_nonneg.
        pose proof (rounded_mult_Z _ ab dp Hq) as Hm. unfold rounded in Hm.
        rewrite Hm. unfold get0 in Hle. rewrite E in Hle. simpl in Hle. lra.
      * rewrite lookup_insert_ne by assumption. apply H0.
  - apply IH; [assumption| |assumption].
    intros r Hr. apply Hrows. now right.
Qed.

Lemma stock_dict_nonneg (rm_stock : list stock_row) (dp : nat) :
  (forall r, In r rm_stock -> 0 <= stock_quantity r) ->
  forall rm, 0 <= get0 (stock_dict rm_stock dp) rm.
Proof.
  intros H rm. unfold get0, stock_dict. rewrite lookup_fmap.
  assert (G : forall m : gmap string Q,
             (forall v, m !! rm = Some v -> 0 <= v) ->
             forall v,
               fold_left (fun m r => <[stock_rm_code r := stock_quantity r]> m)
                         rm_stock m !! rm = Some v -> 0 <= v).
  { induction rm_stock as [|r rs IH]; intros m Hm v; simpl; [apply Hm|].
    apply IH; [intros r' Hr'; apply H; now right|].
    intros w. destruct (decide (stock_rm_code r = rm)) as [<- | Hne].
    - rewrite lookup_insert_eq. intros [= <-]. apply H. now left.
    - rewrite lookup_insert_ne by assumption. apply Hm. }
  destruct (fold_left _ rm_stock ∅ !! rm) as [v|] eqn:E; simpl; [|lra].
  apply py_round_nonneg. apply (G ∅); [|exact E].
  intros w. rewrite lookup_empty. discriminate.
Qed.

(** X14. With non-negative stock, formula quantities that are multiples
    of the precision and no FG of the order naming one RM in two formula
    rows, the allocated pool never goes below zero: what is allocated to a
    Ready FG was there. *)
Theorem pool_stays_nonnegative (rm_stock : list stock_row)
    (formulas : list formula_row) (order : list string)
    (ecs : gmap string Q) (dp : nat) (st : run_state) :
  (forall r, In r rm_stock -> 0 <= stock_quantity r) ->
  (forall row, In row formulas -> rounded (quantity row) dp) ->
  (forall f, In f order -> List.NoDup (formula_rms (formula_of formulas f))) ->
  production_analysis rm_stock formulas order ecs dp = Some st ->
  forall rm, 0 <= get0 (allocated_stock st) rm.
Proof.
  intros Hs Hq Hnd H. unfold production_analysis in H.
  refine (allocation_loop_invariant_in
            (fun s => forall rm, 0 <= get0 (allocated_stock s) rm)
            _ _ _ _ order _ _ st _ H);
    [| simpl; now apply stock_dict_nonneg].
  intros s f s' Hf HP Hstep.
  apply process_fg_inv in Hstep as [[_ ->] | [_ (l & Ha & _ & _ & ->)]];
    [exact HP|].
  destruct (0 <? actual_batches l)%Z eqn:Epos; cbn [andb]; [|exact HP].
  destruct (String.eqb _ _); [|exact HP].
  apply Z.ltb_lt in Epos.
  destruct (analyse_fg_inv _ _ _ _ _ _ _ Ha)
    as (rows & Hrows & _ & _ & _ & _ & Hposs & _ & _ & Hact & _).
  apply deplete_nonneg; [now apply Hnd | | exact HP].
  intros row Hrow.
  assert (Hrq : rounded (quantity row) dp)
    by (apply Hq; now apply formula_of_in in Hrow).
  split; [exact Hrq|].
  unfold rounded in Hrq. rewrite <- Hrq at 1.
  eapply actual_rows_support; [exact Hrows | lia | | | exact Hrow].
  - rewrite <- Hposs. rewrite Hact. destruct (Qltb 0 _); lia.
  - intros Ht. rewrite Hact, Ht. lia.
Qed.

Lemma pool_stays_nonnegative_witness :
  exists st,
    production_analysis fifo_stock fifo_formulas
                        ["FG100000"; "FG200000"] ∅ 3 = Some st /\
    forall rm, 0 <= get0 (allocated_stock st) rm.
Proof.
  destruct (run_is_Some fifo_stock fifo_formulas
              ["FG100000"; "FG200000"] ∅ 3) as [st Hst].
  exists st. split; [exact Hst|].
  apply (pool_stays_nonnegative fifo_stock fifo_formulas
           ["FG100000"; "FG200000"] ∅ 3 st);
    [| exact fifo_formulas_rounded | | exact Hst].
  - intros r [<- | []]. vm_compute. discriminate.
  - intros f [<- | [<- | []]]; vm_compute;
      (constructor; [intros [] | constructor]).
Defined.

(** Without those conditions the pool can go below zero: at precision 0 a
    requirement of 1.4 kg is checked as 1 kg per batch but depleted as
    1.4 kg per batch. *)
Lemma pool_can_go_negative :
  exists st,
    production_analysis
      [ {| stock_rm_code := "RM_X0000"; stock_quantity := 10 |} ]
      [ {| fg_code := "FG100000"; rm_code := "RM_X0000";
           quantity := 14 # 10 |} ]
      ["FG100000"] ∅ 0 = Some st /\
    summary st = [ ("FG100000", 250, 10, 250, "✅ Ready") ]%Z /\
    allocated_stock st !! "RM_X0000" = Some (-4 # 1).
Proof. eexists. split; [vm_compute; reflexivity|]. split; reflexivity. Qed.

(** ** After the loop *)







Lemma contains_ready : contains "✅" status_ready = true.
Proof. reflexivity. Qed.

Lemma contains_shortage : contains "✅" status_shortage = false.
Proof. reflexivity. Qed.

(** X20. The producible FGs of the summary, picked by the check mark
    in their status, are exactly the results with at least one batch, in
    the order of the results. *)
Theorem ready_fgs_have_batches (rm_stock : list stock_row)
    (formulas : list formula_row) (order : list string)
    (ecs : gmap string Q) (dp : nat) (st : run_state) :
  production_analysis rm_stock formulas order ecs dp = Some st ->
  ready_fgs (results st)
  = List.filter (fun r => (1 <=? Batches r)%Z) (results st) /\
  (forall r, In r (results st) ->
     (In r (ready_fgs (results st)) <-> (1 <= Batches r)%Z)).
Proof.
  intros Hst.
  assert (E : forall r, In r (results st) ->
                contains "✅" (Status r) = (1 <=? Batches r)%Z).
  { intros r Hr. unfold results in Hr.
    apply in_map_iff in Hr as (l & <- & Hl). cbn [Status Batches result_of].
    destruct (run_analysed _ _ _ _ _ _ _ Hst Hl) as (allocated & _ & _ & Ha).
    destruct (analyse_fg_inv _ _ _ _ _ _ _ Ha)
      as (rows & _ & _ & _ & _ & _ & _ & _ & _ & _ & Hcap & Hstat).
    rewrite Hstat, Hcap.
    destruct (Z.leb_spec 25 (actual_batches l * 25));
      [rewrite contains_ready | rewrite contains_shortage];
      symmetry; [apply Z.leb_le | apply Z.leb_gt]; lia. }
  split.
  - unfold ready_fgs. apply filter_ext_in. exact E.
  - intros r Hr. unfold ready_fgs. rewrite filter_In, (E r Hr), Z.leb_le.
    tauto.
Qed.

Lemma ready_fgs_have_batches_witness :
  exists st,
    production_analysis fifo_stock fifo_formulas
                        ["FG100000"; "FG200000"] ∅ 3 = Some st /\
    map FG (ready_fgs (results st)) = ["FG100000"].
Proof.
  destruct (run_is_Some fifo_stock fifo_formulas
              ["FG100000"; "FG200000"] ∅ 3) as [st Hst].
  exists st. split; [exact Hst|].
  rewrite (proj1 (ready_fgs_have_batches _ _ _ _ _ _ Hst)).
  revert Hst. vm_compute. intros [= <-]. reflexivity.
Defined.

(** ** More on the code normaliser *)

Lemma lstrip_app_space (a t : string) :
  all_space a = true -> lstrip (a ++ t) = lstrip t.
Proof.
  induction a as [|c a IH]; [reflexivity|]. simpl. intros H.
  apply andb_prop in H as [Hc Ha].
  change (String c a ++ t) with (String c (a ++ t)). simpl.
  rewrite Hc. now apply IH.
Qed.

Lemma rstrip_all_space (b : string) : all_space b = true -> rstrip b = "".
Proof.
  induction b as [|c b IH]; [reflexivity|]. simpl. intros H.
  apply andb_prop in H as [Hc Hb]. rewrite (IH Hb), Hc. reflexivity.
Qed.

Lemma rstrip_app_space (t b : string) :
  all_space b = true -> rstrip (t ++ b) = rstrip t.
Proof.
  intros Hb. induction t as [|c t IH].
  - change ("" ++ b) with b. now apply rstrip_all_space.
  - change (String c t ++ b) with (String c (t ++ b)). simpl.
    now rewrite IH.
Qed.

Lemma lstrip_all_space (b : string) : all_space b = true -> lstrip b = "".
Proof.
  induction b as [|c b IH]; [reflexivity|]. simpl. intros H.
  apply andb_prop in H as [Hc Hb]. rewrite Hc. now apply IH.
Qed.

Lemma strip_app_space_r (s b : string) :
  all_space b = true -> strip (s ++ b) = strip s.
Proof.
  intros Hb. unfold strip. induction s as [|c s IH].
  - change ("" ++ b) with b. now rewrite (lstrip_all_space b Hb).
  - change (String c s ++ b) with (String c (s ++ b)). simpl.
    destruct (isspace c); [exact IH|].
    change (String c (s ++ b)) with (String c s ++ b).
    now apply rstrip_app_space.
Qed.

Lemma strip_outer_space (a s b : string) :
  all_space a = true -> all_space b = true -> strip (a ++ s ++ b) = strip s.
Proof.
  intros Ha Hb. rewrite <- (strip_app_space_r s b Hb).
  unfold strip. now rewrite (lstrip_app_space a (s ++ b) Ha).
Qed.

(** X2. White space around a code never matters: text with any run
    of white space before and after it is normalised to the same code as
    the text alone. *)
Theorem norm_ignores_outer_space (a s b : string) :
  all_space a = true -> all_space b = true ->
  norm (a ++ s ++ b) = norm s.
Proof.
  intros Ha Hb. unfold norm, preserve_8char_code.
  now rewrite (strip_outer_space a s b Ha Hb).
Qed.

Lemma norm_ignores_outer_space_witness :
  norm ("  " ++ "AB1" ++ " ") = norm "AB1".
Proof.
  apply (norm_ignores_outer_space "  " "AB1" " "); reflexivity.
Defined.

Lemma norm_length_ge8 (s : string) : (8 <= String.length (norm s))%nat.
Proof.
  unfold norm. rewrite preserve_8char_code_words. unfold normalize_words.
  destruct (isdigit (strip s)) eqn:Ed.
  - destruct (Nat.ltb_spec 8 (String.length (strip s))) as [Hl | Hl]; [lia|].
    rewrite str_length_app, fill_length. lia.
  - destruct (Nat.ltb_spec (String.length (strip s)) 8) as [Hl | Hl].
    + rewrite str_length_app, fill_length. lia.
    + rewrite prefix_length by assumption. lia.
Qed.

(** X1. A normalised code has at least 8 characters; it has exactly
    8 unless the trimmed text is all digits and longer than 8, which is
    returned as it is.  The normaliser returns the empty string for a
    missing value only. *)
Theorem norm_length (s : string) :
  (8 <= String.length (norm s))%nat /\
  (String.length (norm s) = 8%nat \/
   (isdigit (strip s) = true /\ (8 < String.length (strip s))%nat /\
    norm s = strip s)) /\
  (forall code, preserve_8char_code code = "" <-> code = NaN).
Proof.
  assert (H : (8 <= String.length (norm s))%nat /\
              (String.length (norm s) = 8%nat \/
               (isdigit (strip s) = true /\ (8 < String.length (strip s))%nat /\
                norm s = strip s))).
  { unfold norm. rewrite preserve_8char_code_words. unfold normalize_words.
    destruct (isdigit (strip s)) eqn:Ed.
    - destruct (Nat.ltb_spec 8 (String.length (strip s))) as [Hl | Hl].
      + split; [lia|]. right. auto.
      + rewrite str_length_app, fill_length. split; [lia | left; lia].
    - destruct (Nat.ltb_spec (String.length (strip s)) 8) as [Hl | Hl].
      + rewrite str_length_app, fill_length. split; [lia | left; lia].
      + rewrite prefix_length by assumption. split; [lia | now left]. }
  split; [apply H|]. split; [apply H|].
  intros code. split.
  - destruct code as [|t]; [reflexivity|]. intros E. exfalso.
    clear H.
    pose proof (norm_length_ge8 t) as H8. unfold norm in H8.
    rewrite E in H8. simpl in H8. lia.
  - now intros ->.
Qed.

(** ** The loaders *)

Lemma norm_kept (s : string) : kept_code (norm s) = true.
Proof.
  pose proof (norm_length_ge8 s) as H. unfold kept_code.
  destruct (String.eqb_spec (norm s) "") as [E | _];
    [rewrite E in H; simpl in H; lia|].
  destruct (String.eqb_spec (norm s) "nan") as [E | _];
    [rewrite E in H; simpl in H; lia|].
  reflexivity.
Qed.

(** X4. The stock upload drops exactly the rows whose code
    cell is missing: every row with text in the code cell is kept, in
    order, with the normalised code and with quantity 0 when the quantity
    is not a number (blank text becomes the code ["00000000"] and the test
    against ['nan'] never fires).  Every stored code has at least 8
    characters, and an upload without any such row leaves the stock table
    as it was. *)
Theorem stock_upload_keeps_text_codes (df : list (cell * option Q))
    (rm_stock : list stock_row) :
  process_rm_stock df
  = flat_map (fun '(code, qty) =>
                match code with
                | NaN => []
                | Str s => [ {| stock_rm_code := norm s;
                                stock_quantity := default 0 qty |} ]
                end) df /\
  (forall r, In r (process_rm_stock df) ->
             (8 <= String.length (stock_rm_code r))%nat) /\
  ((forall code qty, In (code, qty) df -> code = NaN) ->
   upload_rm_stock df rm_stock = rm_stock) /\
  (forall s qty, In (Str s, qty) df ->
   upload_rm_stock df rm_stock = process_rm_stock df).
Proof.
  assert (E : process_rm_stock df
              = flat_map (fun '(code, qty) =>
                            match code with
                            | NaN => []
                            | Str s => [ {| stock_rm_code := norm s;
                                            stock_quantity := default 0 qty |} ]
                            end) df).
  { unfold process_rm_stock. induction df as [|[code qty] df IH];
      [reflexivity|].
    cbn [map List.filter flat_map stock_rm_code]. rewrite IH.
    destruct code as [|s]; [reflexivity|].
    change (preserve_8char_code (Str s)) with (norm s).
    rewrite norm_kept. reflexivity. }
  split; [exact E|]. split; [|split].
  - rewrite E. intros r Hr. apply in_flat_map in Hr as ([code qty] & _ & Hr).
    destruct code as [|s]; [destruct Hr|]. destruct Hr as [<- | []].
    apply norm_length_ge8.
  - intros Hall. unfold upload_rm_stock. rewrite E.
    replace (flat_map _ df) with (@nil stock_row); [reflexivity|].
    symmetry. clear E. induction df as [|[code qty] df IH]; [reflexivity|].
    cbn [flat_map]. rewrite (Hall code qty (or_introl eq_refl)).
    apply IH. intros c q Hin. apply (Hall c q). now right.
  - intros s qty Hin. unfold upload_rm_stock.
    destruct (process_rm_stock df) eqn:Ep; [|reflexivity].
    exfalso.
    assert (Hr : In {| stock_rm_code := norm s; stock_quantity := default 0 qty |}
                    (flat_map (fun '(code, qty) =>
                                 match code with
                                 | NaN => []
                                 | Str s => [ {| stock_rm_code := norm s;
                                                 stock_quantity := default 0 qty |} ]
                                 end) df)).
    { apply in_flat_map. exists (Str s, qty). split; [assumption | now left]. }
    rewrite <- E in Hr. destruct Hr.
Qed.

Lemma stock_upload_keeps_text_codes_witness :
  upload_rm_stock [(NaN, Some 5); (Str "  ", None); (Str "7", Some (3 # 2))] []
  = [ {| stock_rm_code := "00000000"; stock_quantity := 0 |};
      {| stock_rm_code := "00000007"; stock_quantity := 3 # 2 |} ].
Proof.
  rewrite (proj2 (proj2 (proj2 (stock_upload_keeps_text_codes
             [(NaN, Some 5); (Str "  ", None); (Str "7", Some (3 # 2))] [])))
             "7" (Some (3 # 2))).
  - reflexivity.
  - simpl. auto.
Defined.

(** ** More on the two transforms *)

Lemma group_add_fg_total (r : formula_row) (groups : list formula_row)
    (f : string) :
  fg_total f (group_add r groups) == fg_total f (r :: groups).
Proof.
  induction groups as [|g gs IH].
  - simpl. destruct (String.eqb _ _); [rewrite Qred_correct|]; reflexivity.
  - cbn [group_add]. destruct (same_key g r) eqn:E.
    + apply same_key_iff in E. injection E as E1 E2.
      cbn [fg_total fg_code quantity]. rewrite <- E1.
      destruct (String.eqb (fg_code g) f); [rewrite Qred_correct; ring|].
      reflexivity.
    + cbn [fg_total] in *.
      destruct (String.eqb (fg_code g) f); destruct (String.eqb (fg_code r) f);
        rewrite IH; ring.
Qed.

Lemma group_add_fgs (r : formula_row) (groups : list formula_row) (f : string) :
  In f (map fg_code (group_add r groups))
  <-> f = fg_code r \/ In f (map fg_code groups).
Proof.
  induction groups as [|g gs IH]; cbn [group_add map In fg_code].
  - split; [intros [<- | []]; now left | intros [-> | []]; now left].
  - destruct (same_key g r) eqn:E; cbn [map In fg_code].
    + apply same_key_iff in E. injection E as E1 E2. rewrite <- E1.
      split; [intros [<- | H]; auto | intros [-> | [<- | H]]; auto].
    + rewrite IH. tauto.
Qed.

Lemma fg_total_perm (f : string) (l l' : list formula_row) :
  Permutation l l' -> fg_total f l == fg_total f l'.
Proof.
  induction 1 as [|x l l' _ IH|x y l|l l' l'' _ IH1 _ IH2]; simpl.
  - reflexivity.
  - destruct (String.eqb _ _); rewrite IH; reflexivity.
  - do 2 destruct (String.eqb _ _); ring.
  - now rewrite IH1.
Qed.

Lemma groupby_sum_fg (rows : list formula_row) (f : string) :
  fg_total f (groupby_sum rows) == fg_total f rows /\
  (In f (map fg_code (groupby_sum rows)) <-> In f (map fg_code rows)).
Proof.
  unfold groupby_sum.
  pose proof (sort_rows_perm
                (fold_left (fun groups r => group_add r groups) rows [])) as Hp.
  assert (G : forall groups,
             fg_total f (fold_left (fun groups r => group_add r groups)
                                   rows groups)
             == fg_total f rows + fg_total f groups /\
             (In f (map fg_code (fold_left (fun groups r => group_add r groups)
                                           rows groups))
              <-> In f (map fg_code rows) \/ In f (map fg_code groups))).
  { clear Hp. induction rows as [|r rows IH]; intros groups; simpl.
    - split; [ring | tauto].
    - destruct (IH (group_add r groups)) as [H1 H2]. split.
      + rewrite H1, group_add_fg_total. simpl.
        destruct (String.eqb _ _); ring.
      + rewrite H2, group_add_fgs. split; [intros [?|[->|?]] | intros [[<-|?]|?]];
          auto. }
  destruct (G []) as [H1 H2]. split.
  - rewrite (fg_total_perm f _ _ Hp), H1. simpl. ring.
  - split; intros Hin.
    + apply (Permutation_in _ (Permutation_map fg_code Hp)) in Hin.
      apply H2 in Hin as [Hin | []]. exact Hin.
    + apply (Permutation_in _ (Permutation_map fg_code (Permutation_sym Hp))).
      apply H2. now left.
Qed.

Lemma map_fg_total (g : formula_row -> formula_row) (rows : list formula_row)
    (f : string) :
  (forall r, fg_code (g r) = fg_code r /\ quantity (g r) = quantity r) ->
  fg_total f (map g rows) == fg_total f rows /\
  map fg_code (map g rows) = map fg_code rows.
Proof.
  intros Hg. induction rows as [|r rows [IH1 IH2]]; simpl;
    [split; reflexivity|].
  destruct (Hg r) as [E1 E2]. rewrite E1, E2, IH2. split; [|reflexivity].
  destruct (String.eqb _ _); rewrite IH1; reflexivity.
Qed.

(** X8. Replacement renames raw materials and nothing else:
    whatever the rules, the FGs of the table are the same before and after,
    and for each FG the summed quantity of its formula is unchanged. *)
Theorem replacement_keeps_fg_totals (rules : list replacement_rule)
    (formulas : list formula_row) (f : string) :
  fg_total f (apply_rm_replacement rules formulas) == fg_total f formulas /\
  (In f (map fg_code (apply_rm_replacement rules formulas))
   <-> In f (map fg_code formulas)).
Proof.
  destruct rules as [|r rs]; [split; reflexivity|].
  destruct formulas as [|x xs]; [split; reflexivity|].
  unfold apply_rm_replacement.
  set (g := fun row => {| fg_code := fg_code row;
                          rm_code := replace_code (replacement_map (r :: rs))
                                                  (rm_code row);
                          quantity := quantity row |}).
  destruct (groupby_sum_fg (map g (x :: xs)) f) as [H1 H2].
  destruct (map_fg_total g (x :: xs) f) as [H3 H4]; [now intros row|].
  split; [now rewrite H1 | now rewrite H2, H4].
Qed.

(** *** Dilution *)

Lemma dilute_row_fg (rules : list dilution_rule) (frow : formula_row) :
  dilute_row rules frow <> [] /\
  forall r, In r (dilute_row rules frow) -> fg_code r = fg_code frow.
Proof.
  unfold dilute_row.
  destruct (List.filter _ rules) as [|d ds]; split; try discriminate.
  - intros r [<- | []]. reflexivity.
  - intros r Hr. apply in_map_iff in Hr as (x & <- & _). reflexivity.
Qed.

(** X9. With at least one dilution rule, the diluted table has
    at most one row per (FG, RM), the quantity of each (FG, RM) is the sum
    of the component and kept rows that carry it, and the FGs of the table
    are the same before and after. *)
Theorem dilution_groups_components (rules : list dilution_rule)
    (formulas : list formula_row) :
  rules <> [] ->
  let expanded := flat_map (dilute_row rules) formulas in
  let out := apply_dilution_rules rules formulas in
  List.NoDup (map key out) /\
  (forall k, In k (map key out) <-> In k (map key expanded)) /\
  (forall k, total k out == total k expanded) /\
  (forall f, In f (map fg_code out) <-> In f (map fg_code formulas)).
Proof.
  intros Hr expanded out.
  assert (E : out = groupby_sum expanded).
  { subst out expanded. unfold apply_dilution_rules.
    destruct rules; [congruence|].
    destruct (flat_map _ formulas); reflexivity. }
  rewrite E. destruct (groupby_sum_spec expanded) as (H1 & H2 & H3).
  split; [exact H1|]. split; [exact H2|]. split; [exact H3|].
  intros f. rewrite (proj2 (groupby_sum_fg expanded f)).
  subst expanded. rewrite !in_map_iff. split.
  - intros (r & <- & Hin). apply in_flat_map in Hin as (frow & Hf & Hin).
    exists frow. split; [|assumption]. symmetry.
    now apply (proj2 (dilute_row_fg rules frow)).
  - intros (frow & <- & Hf).
    destruct (dilute_row_fg rules frow) as [Hne Hfg].
    destruct (dilute_row rules frow) as [|r rs] eqn:Ed; [congruence|].
    exists r. split; [apply Hfg; now left|].
    apply in_flat_map. exists frow. split; [assumption|].
    rewrite Ed. now left.
Qed.

Lemma dilution_groups_components_witness :
  List.NoDup
    (map key
       (apply_dilution_rules
          [ {| dil_rm_code := "RM_A0000"; component_rm_code := "RM_B0000";
               percentage := 50 |} ]
          [ {| fg_code := "FG100000"; rm_code := "RM_A0000"; quantity := 10 |};
            {| fg_code := "FG100000"; rm_code := "RM_B0000"; quantity := 5 |} ])).
Proof.
  apply (dilution_groups_components
           [ {| dil_rm_code := "RM_A0000"; component_rm_code := "RM_B0000";
                percentage := 50 |} ]).
  discriminate.
Defined.

Lemma round_half_even_error (y : Q) :
  y - (1 # 2) <= inject_Z (round_half_even y) <= y + (1 # 2).
Proof.
  unfold round_half_even.
  pose proof (Qfloor_le y) as H1. pose proof (Qlt_floor y) as H2.
  rewrite inject_Z_plus in H2. change (inject_Z 1) with 1 in H2.
  destruct (Qcompare_spec (y - inject_Z (Qfloor y)) (1 # 2)) as [H | H | H].
  - destruct (Z.even (Qfloor y)); [|rewrite inject_Z_plus;
      change (inject_Z 1) with 1]; lra.
  - lra.
  - rewrite inject_Z_plus. change (inject_Z 1) with 1. lra.
Qed.

Lemma py_round_error (x : Q) (n : nat) :
  x - (1 # 2) / inject_Z (pow10 n) <= py_round x n
  <= x + (1 # 2) / inject_Z (pow10 n).
Proof.
  pose proof (pow10_Qpos n) as Hp. rewrite py_round_eq.
  pose proof (round_half_even_error (x * inject_Z (pow10 n))) as [H1 H2].
  set (r := inject_Z (round_half_even (x * inject_Z (pow10 n)))) in *.
  split.
  - apply Qle_shift_div_l; [assumption|].
    assert (E : (x - (1 # 2) / inject_Z (pow10 n)) * inject_Z (pow10 n)
                == x * inject_Z (pow10 n) - (1 # 2)) by (field; lra).
    now rewrite E.
  - apply Qle_shift_div_r; [assumption|].
    assert (E : (x + (1 # 2) / inject_Z (pow10 n)) * inject_Z (pow10 n)
                == x * inject_Z (pow10 n) + (1 # 2)) by (field; lra).
    now rewrite E.
Qed.

(** X10. A component quantity differs from the exact share
    [quantity * percentage / 100] by less than 0.00015: by at most 0.00005
    (the rounding to 4 decimals) when the share is not below 0.00005 in
    absolute value, and by less than 0.00015 when the floor rule sets it to
    0.0001. *)
Theorem dilution_error_bound (q p : Q) :
  let share := q * (p / 100) in
  - (15 # 100000) < component_qty q p - share < 15 # 100000 /\
  (~ Qabs share < 5 # 100000 ->
   - (5 # 100000) <= component_qty q p - share <= 5 # 100000).
Proof.
  intros share.
  assert (H4 : (1 # 2) / inject_Z (pow10 4) == 5 # 100000) by reflexivity.
  pose proof (py_round_error share 4) as Herr. rewrite H4 in Herr.
  unfold component_qty. fold share.
  destruct (Qltb (Qabs share) (5 # 100000)) eqn:E.
  - apply Qltb_true in E. apply Qabs_Qlt_condition in E.
    assert (Hc : py_round (1 # 10000) 4 == 1 # 10000) by reflexivity.
    rewrite Hc. split; [lra|]. intros Hn. exfalso. apply Hn.
    apply Qabs_Qlt_condition. lra.
  - split; [lra|]. intros _. lra.
Qed.

Lemma dilution_error_bound_witness :
  ~ Qabs (10 * (50 / 100)) < 5 # 100000 /\
  - (5 # 100000) <= component_qty 10 50 - 10 * (50 / 100) <= 5 # 100000.
Proof.
  assert (H : ~ Qabs (10 * (50 / 100)) < 5 # 100000)
    by (intros H; vm_compute in H; discriminate H).
  split; [exact H|].
  exact (proj2 (dilution_error_bound 10 50) H).
Defined.

(** ** Colours of the FG codes *)

Lemma get_fg_color_new (f : string) (d : gmap string string) :
  d !! f = None ->
  get_fg_color f d
  = (nth (size d mod 20) colors_list "",
     <[f := nth (size d mod 20) colors_list ""]> d).
Proof. intros H. unfold get_fg_color. now rewrite H. Qed.

Lemma get_fg_color_keeps (f g c : string) (d : gmap string string) :
  d !! g = Some c ->
  snd (get_fg_color f d) !! g = Some c /\ fst (get_fg_color g d) = c.
Proof.
  intros H. unfold get_fg_color. rewrite H. split; [|reflexivity].
  destruct (d !! f) eqn:E; simpl; [assumption|].
  rewrite lookup_insert_ne; [assumption | congruence].
Qed.

Lemma colors_after_spec (codes : list string) (d : gmap string string) :
  List.NoDup codes ->
  (forall f, In f codes -> d !! f = None) ->
  (forall i f, nth_error codes i = Some f ->
     colors_after codes d !! f
     = Some (nth ((size d + i) mod 20) colors_list "")) /\
  (forall g, ~ In g codes -> colors_after codes d !! g = d !! g).
Proof.
  unfold colors_after. revert d.
  induction codes as [|f codes IH]; intros d Hnd Hfree; cbn [fold_left].
  - split; [intros [|i] g; discriminate | reflexivity].
  - inversion Hnd as [|x xs Hnin Hnd']; subst.
    rewrite (get_fg_color_new f d) by (apply Hfree; now left). cbn [snd].
    set (c := nth (size d mod 20) colors_list "").
    destruct (IH (<[f := c]> d) Hnd') as [H1 H2].
    + intros g Hg. rewrite lookup_insert_ne; [apply Hfree; now right|].
      intros ->. contradiction.
    + assert (Hsz : size (<[f := c]> d) = S (size d))
        by (apply map_size_insert_None, Hfree; now left).
      split.
      * intros [|i] g Hg; simpl in Hg.
        -- injection Hg as Hg. subst g. rewrite (H2 f Hnin), lookup_insert_eq.
           unfold c. now rewrite Nat.add_0_r.
        -- rewrite (H1 i g Hg), Hsz. do 3 f_equal. lia.
      * intros g Hg. rewrite H2 by (intros Hin; apply Hg; now right).
        apply lookup_insert_ne. intros ->. apply Hg. now left.
Qed.

(** X7. Colours are handed out in palette order and never change:
    asking for the colours of distinct codes, starting from no colour at
    all, gives the code in position [i] the palette colour [i mod 20]; and
    a code that has a colour keeps it through any later call and gets it
    back when asked again. *)
Theorem colours_in_palette_order (codes : list string) :
  List.NoDup codes ->
  (forall i f, nth_error codes i = Some f ->
     colors_after codes ∅ !! f = Some (nth (i mod 20) colors_list "")) /\
  (forall (d : gmap string string) f g c, d !! g = Some c ->
     snd (get_fg_color f d) !! g = Some c /\ fst (get_fg_color g d) = c).
Proof.
  intros Hnd. split.
  - intros i f Hf.
    destruct (colors_after_spec codes ∅ Hnd) as [H _];
      [intros; apply lookup_empty|].
    rewrite (H i f Hf), map_size_empty. reflexivity.
  - intros d f g c. apply get_fg_color_keeps.
Qed.

Lemma colours_in_palette_order_witness :
  colors_after ["FG100000"; "FG200000"] ∅ !! "FG200000" = Some "#ff7f0e".
Proof.
  assert (Hnd : List.NoDup ["FG100000"; "FG200000"]).
  { constructor; [intros [H | []]; discriminate H|].
    constructor; [intros [] | constructor]. }
  exact (proj1 (colours_in_palette_order _ Hnd) 1%nat "FG200000" eq_refl).
Defined.

(** ** The FIFO order built from the selection *)

Lemma str_ltb_lt (a b : string) :
  String.ltb a b = true <-> OrderedTypeEx.String_as_OT.lt a b.
Proof.
  rewrite <- OrderedTypeEx.String_as_OT.cmp_lt.
  unfold String.ltb, OrderedTypeEx.String_as_OT.cmp.
  destruct (String.compare a b); split; congruence.
Qed.

Lemma str_leb_iff (a b : string) :
  String.leb a b = true <-> a = b \/ String.ltb a b = true.
Proof.
  unfold String.leb, String.ltb.
  pose proof (OrderedTypeEx.String_as_OT.cmp_eq a b) as He.
  unfold OrderedTypeEx.String_as_OT.cmp in He.
  destruct (String.compare a b); split; try tauto; try congruence.
  - intros [H | H]; [|discriminate]. apply He in H. discriminate.
Qed.

Lemma str_ltb_trans (a b c : string) :
  String.ltb a b = true -> String.ltb b c = true -> String.ltb a c = true.
Proof.
  rewrite !str_ltb_lt. apply OrderedTypeEx.String_as_OT.lt_trans.
Qed.

Lemma str_ltb_irrefl (a : string) : String.ltb a a = false.
Proof.
  destruct (String.ltb a a) eqn:E; [|reflexivity].
  apply str_ltb_lt in E.
  exfalso. exact (OrderedTypeEx.String_as_OT.lt_not_eq a a E eq_refl).
Qed.

Lemma str_leb_trans (a b c : string) :
  String.leb a b = true -> String.leb b c = true -> String.leb a c = true.
Proof.
  rewrite !str_leb_iff. intros [-> | H1] [-> | H2]; auto.
  right. eapply str_ltb_trans; eassumption.
Qed.

Lemma insert_str_in (x y : string) (l : list string) :
  In y (insert_str x l) <-> y = x \/ In y l.
Proof.
  induction l as [|z l IH]; simpl.
  - split; [intros [<- | []]; now left | intros [-> | []]; now left].
  - destruct (String.leb x z); simpl.
    + split; [intros [<- | H]; auto | intros [-> | H]; auto].
    + rewrite IH. split; [intros [?|[?|?]] | intros [?|[?|?]]]; auto.
Qed.

Lemma insert_str_sorted (x : string) (l : list string) :
  Sorted.StronglySorted (fun a b => String.leb a b = true) l ->
  Sorted.StronglySorted (fun a b => String.leb a b = true) (insert_str x l).
Proof.
  induction 1 as [|z l Hs IH Hall]; simpl.
  - constructor; constructor.
  - destruct (String.leb x z) eqn:E.
    + constructor; [now constructor|]. constructor; [assumption|].
      rewrite List.Forall_forall in *. intros y Hy.
      eapply str_leb_trans; [exact E | now apply Hall].
    + constructor; [assumption|].
      rewrite List.Forall_forall in *. intros y Hy.
      apply insert_str_in in Hy as [-> | Hy]; [|now apply Hall].
      destruct (String.leb_total x z) as [H | H]; [congruence | assumption].
Qed.

Lemma sorted_spec (l : list string) :
  Sorted.StronglySorted (fun a b => String.leb a b = true) (sorted l) /\
  forall y, In y (sorted l) <-> In y l.
Proof.
  induction l as [|x l [IH1 IH2]]; simpl.
  - split; [constructor | tauto].
  - split; [now apply insert_str_sorted|].
    intros y. rewrite insert_str_in, IH2.
    split; [intros [-> | H] | intros [<- | H]]; auto.
Qed.

Lemma dict_set_keys {V : Type} (k : string) (v : V) (d : list (string * V)) :
  (In k (map fst d) -> map fst (dict_set k v d) = map fst d) /\
  (~ In k (map fst d) -> map fst (dict_set k v d) = (map fst d ++ [k])%list).
Proof.
  induction d as [|[k' v'] d [IH1 IH2]]; simpl.
  - split; [intros [] | reflexivity].
  - destruct (String.eqb_spec k' k) as [-> | Hne]; simpl.
    + split; [reflexivity | intros H; exfalso; apply H; now left].
    + split.
      * intros [H | H]; [contradiction|]. now rewrite IH1.
      * intros H. rewrite IH2; [reflexivity|]. intros Hin. apply H. now right.
Qed.

Lemma strongly_sorted_snoc (l : list string) (x : string) :
  Sorted.StronglySorted (fun a b => String.ltb a b = true) l ->
  (forall k, In k l -> String.ltb k x = true) ->
  Sorted.StronglySorted (fun a b => String.ltb a b = true) (l ++ [x]).
Proof.
  induction 1 as [|z l Hs IH Hall]; intros Hx; simpl.
  - constructor; constructor.
  - constructor.
    + apply IH. intros k Hk. apply Hx. now right.
    + rewrite List.Forall_forall in *. intros y Hy.
      apply in_app_iff in Hy as [Hy | [<- | []]]; [now apply Hall|].
      apply Hx. now left.
Qed.

Lemma new_order_keys (i : nat) (todo : list string) (d : list (string * nat)) :
  Sorted.StronglySorted (fun a b => String.leb a b = true) todo ->
  Sorted.StronglySorted (fun a b => String.ltb a b = true) (map fst d) ->
  (forall k x, In k (map fst d) -> In x todo -> String.leb k x = true) ->
  let keys := map fst (fold_left (fun d '(i, fg) => dict_set fg i d)
                                 (enumerate_from i todo) d) in
  Sorted.StronglySorted (fun a b => String.ltb a b = true) keys /\
  (forall y, In y keys <-> In y (map fst d) \/ In y todo).
Proof.
  revert i d. induction todo as [|x todo IH]; intros i d Hs Hd Hle; simpl.
  - split; [assumption | tauto].
  - inversion Hs as [|z l Hs' Hall]; subst.
    rewrite List.Forall_forall in Hall.
    destruct (dict_set_keys x i d) as [K1 K2].
    destruct (in_dec String.string_dec x (map fst d)) as [Hin | Hnin].
    + destruct (IH (S i) (dict_set x i d) Hs') as [H1 H2].
      * now rewrite K1.
      * rewrite K1 by assumption. intros k y Hk Hy. apply Hle; [assumption|].
        now right.
      * split; [exact H1|]. intros y. rewrite H2, K1 by assumption.
        split; [tauto | intros [?|[<-|?]]; auto].
    + destruct (IH (S i) (dict_set x i d) Hs') as [H1 H2].
      * rewrite K2 by assumption. apply strongly_sorted_snoc; [assumption|].
        intros k Hk. specialize (Hle k x Hk (or_introl eq_refl)).
        apply str_leb_iff in Hle as [-> | Hlt]; [contradiction | assumption].
      * rewrite K2 by assumption. intros k y Hk Hy.
        apply in_app_iff in Hk as [Hk | [<- | []]].
        -- apply Hle; [assumption | now right].
        -- now apply Hall.
      * split; [exact H1|]. intros y. rewrite H2, K2, in_app_iff by assumption.
        simpl. tauto.
Qed.

Lemma strongly_sorted_NoDup (l : list string) :
  Sorted.StronglySorted (fun a b => String.ltb a b = true) l -> List.NoDup l.
Proof.
  induction 1 as [|z l Hs IH Hall]; constructor; [|assumption].
  rewrite List.Forall_forall in Hall. intros Hin.
  specialize (Hall z Hin). rewrite str_ltb_irrefl in Hall. discriminate.
Qed.

(** X6. The FIFO order is the selection sorted: its FG codes are in
    strictly ascending order (by character code), so none is repeated, and
    they are exactly the selected codes.  So the results of a run come out
    in ascending FG code, whatever the order of selection. *)
Theorem fifo_order_is_sorted_selection (selected_fgs : list string) :
  Sorted.StronglySorted (fun a b => String.ltb a b = true)
                        (fifo_order_of selected_fgs) /\
  List.NoDup (fifo_order_of selected_fgs) /\
  (forall f, In f (fifo_order_of selected_fgs) <-> In f selected_fgs) /\
  (forall rm_stock formulas ecs dp st,
     production_analysis rm_stock formulas (fifo_order_of selected_fgs) ecs dp
     = Some st ->
     Sorted.StronglySorted (fun a b => String.ltb a b = true)
                           (map FG (results st))).
Proof.
  destruct (sorted_spec selected_fgs) as [Hs Hin].
  destruct (new_order_keys 0 (sorted selected_fgs) [] Hs) as [H1 H2].
  { constructor. }
  { intros k x []. }
  fold (new_order selected_fgs) in H1, H2.
  fold (fifo_order_of selected_fgs) in H1, H2.
  split; [exact H1|]. split; [now apply strongly_sorted_NoDup|]. split.
  - intros f. rewrite H2, Hin. simpl. tauto.
  - intros rm_stock formulas ecs dp st Hst.
    rewrite (run_result_fgs _ _ _ _ _ _ Hst).
    clear -H1. induction H1 as [|z l Hs IH Hall]; simpl; [constructor|].
    destruct (has_formula formulas z); [|exact IH].
    constructor; [exact IH|].
    rewrite List.Forall_forall in *. intros y Hy.
    apply filter_In in Hy as [Hy _]. now apply Hall.
Qed.

Lemma fifo_order_is_sorted_selection_witness :
  fifo_order_of ["FG200000"; "FG100000"; "FG200000"]
  = ["FG100000"; "FG200000"] /\
  exists st,
    production_analysis fifo_stock fifo_formulas
      (fifo_order_of ["FG200000"; "FG100000"; "FG200000"]) ∅ 3 = Some st /\
    Sorted.StronglySorted (fun a b => String.ltb a b = true)
                          (map FG (results st)).
Proof.
  split; [reflexivity|].
  destruct (run_is_Some fifo_stock fifo_formulas
              (fifo_order_of ["FG200000"; "FG100000"; "FG200000"]) ∅ 3)
    as [st Hst].
  exists st. split; [exact Hst|].
  exact (proj2 (proj2 (proj2 (fifo_order_is_sorted_selection
           ["FG200000"; "FG100000"; "FG200000"]))) _ _ _ _ _ Hst).
Defined.

(** ** The formula upload *)

Lemma seen_test (seen : list (string * string)) (r : formula_row) :
  existsb (fun k => (String.eqb (fst k) (fg_code r)
                     && String.eqb (snd k) (rm_code r))%bool) seen = true
  <-> In (key r) seen.
Proof.
  rewrite existsb_exists. unfold key. split.
  - intros ([a b] & Hin & H). simpl in H.
    apply andb_prop in H as [H1 H2].
    apply String.eqb_eq in H1, H2. now subst.
  - intros H. exists (fg_code r, rm_code r). split; [assumption|]. simpl.
    now rewrite !String.eqb_refl.
Qed.

Lemma drop_duplicates_from_in (seen : list (string * string))
    (rows : list formula_row) (r : formula_row) :
  In r (drop_duplicates_from seen rows) -> In r rows /\ ~ In (key r) seen.
Proof.
  revert seen. induction rows as [|x rows IH]; intros seen; simpl;
    [intros []|].
  destruct (existsb _ seen) eqn:E.
  - intros H. apply IH in H as [H1 H2]. auto.
  - intros [<- | H].
    + split; [now left|]. intros Hin. apply seen_test in Hin. congruence.
    + apply IH in H as [H1 H2]. split; [now right|].
      intros Hin. apply H2. now right.
Qed.

Lemma drop_duplicates_from_keys (seen : list (string * string))
    (rows : list formula_row) (k : string * string) :
  In k (map key (drop_duplicates_from seen rows))
  <-> In k (map key rows) /\ ~ In k seen.
Proof.
  revert seen. induction rows as [|x rows IH]; intros seen; simpl; [tauto|].
  destruct (existsb _ seen) eqn:E.
  - rewrite IH. apply seen_test in E. split; [tauto|].
    intros [[<- | H] Hn]; [contradiction | tauto].
  - assert (Hx : ~ In (key x) seen)
      by (intros Hin; apply seen_test in Hin; congruence).
    simpl. rewrite IH. simpl. split.
    + intros [<- | [H1 H2]]; [tauto|]. split; [tauto|]. tauto.
    + intros [[<- | H] Hn]; [now left|].
      destruct (decide (key x = k)) as [-> | Hne]; [now left|].
      right. split; [assumption|]. intros [? | ?]; contradiction.
Qed.

Lemma drop_duplicates_from_NoDup (seen : list (string * string))
    (rows : list formula_row) :
  List.NoDup (map key (drop_duplicates_from seen rows)).
Proof.
  revert seen. induction rows as [|x rows IH]; intros seen; simpl;
    [constructor|].
  destruct (existsb _ seen); [apply IH|]. simpl. constructor; [|apply IH].
  rewrite drop_duplicates_from_keys. intros [_ H]. apply H. now left.
Qed.

Lemma drop_duplicates_from_first (seen : list (string * string))
    (a b : list formula_row) :
  List.NoDup (map key a) ->
  (forall r, In r a -> ~ In (key r) seen) ->
  drop_duplicates_from seen (a ++ b)
  = (a ++ drop_duplicates_from (rev (map key a) ++ seen) b)%list.
Proof.
  revert seen. induction a as [|x a IH]; intros seen Hnd Hfree;
    [reflexivity|].
  inversion Hnd as [|y ys Hnin Hnd']; subst.
  cbn [app drop_duplicates_from].
  destruct (existsb _ seen) eqn:E.
  - apply seen_test in E. exfalso. apply (Hfree x); [now left | assumption].
  - f_equal. cbn [map rev]. rewrite <- app_assoc. cbn [app].
    apply IH; [assumption|].
    intros r Hr [Heq | Hin].
    + apply Hnin. rewrite Heq. now apply in_map.
    + apply (Hfree r); [now right | assumption].
Qed.

(** X5. A formula upload never changes what is already loaded.
    Merged into a table that is not empty, the rows come out with one row
    per (FG, RM); if the table had one row per (FG, RM) it is kept as it
    is, in place, and only uploaded rows with a new (FG, RM) are appended
    after it.  The first upload, into the empty table, is taken as it is,
    duplicates included. *)
Theorem formula_upload_keeps_earlier_rows
    (new_fg : list (cell * cell * option Q)) (fg_formulas : list formula_row) :
  process_fg_formulas new_fg <> [] ->
  (fg_formulas = [] ->
   upload_fg_formulas new_fg fg_formulas = process_fg_formulas new_fg) /\
  (fg_formulas <> [] ->
   List.NoDup (map key (upload_fg_formulas new_fg fg_formulas)) /\
   (forall k, In k (map key (upload_fg_formulas new_fg fg_formulas))
              <-> In k (map key fg_formulas)
                  \/ In k (map key (process_fg_formulas new_fg))) /\
   (List.NoDup (map key fg_formulas) ->
    exists added,
      upload_fg_formulas new_fg fg_formulas = (fg_formulas ++ added)%list /\
      forall r, In r added ->
        In r (process_fg_formulas new_fg) /\
        ~ In (key r) (map key fg_formulas))).
Proof.
  intros Hp. unfold upload_fg_formulas.
  destruct (process_fg_formulas new_fg) as [|p ps] eqn:Ep; [congruence|].
  split.
  - now intros ->.
  - intros Hne. destruct fg_formulas as [|x xs]; [congruence|].
    unfold drop_duplicates. split; [apply drop_duplicates_from_NoDup|]. split.
    + intros k. rewrite drop_duplicates_from_keys, map_app, in_app_iff.
      simpl. tauto.
    + intros Hnd. rewrite drop_duplicates_from_first; [|assumption|auto].
      eexists. split; [reflexivity|].
      intros r Hr. apply drop_duplicates_from_in in Hr as [H1 H2].
      split; [assumption|]. intros Hin. apply H2.
      apply in_app_iff. left. now apply in_rev in Hin.
Qed.

Lemma formula_upload_keeps_earlier_rows_witness :
  upload_fg_formulas
    [ (Str "FG1", Str "7", Some 2); (Str "FG1", Str "8", Some 3) ]
    [ {| fg_code := "FG100000"; rm_code := "00000007"; quantity := 9 |} ]
  = [ {| fg_code := "FG100000"; rm_code := "00000007"; quantity := 9 |};
      {| fg_code := "FG100000"; rm_code := "00000008"; quantity := 3 |} ] /\
  List.NoDup
    (map key
       (upload_fg_formulas
          [ (Str "FG1", Str "7", Some 2); (Str "FG1", Str "8", Some 3) ]
          [ {| fg_code := "FG100000"; rm_code := "00000007";
               quantity := 9 |} ])).
Proof.
  split; [reflexivity|].
  apply (formula_upload_keeps_earlier_rows
           [ (Str "FG1", Str "7", Some 2); (Str "FG1", Str "8", Some 3) ]
           [ {| fg_code := "FG100000"; rm_code := "00000007";
                quantity := 9 |} ]); discriminate.
Defined.

(** ** Codes cut at a white space and the lookups of the loop *)

Lemma lstrip_length (s : string) :
  (String.length (lstrip s) <= String.length s)%nat.
Proof.
  induction s as [|c s IH]; simpl; [lia|].
  destruct (isspace c); simpl; lia.
Qed.

Lemma rstrip_length (s : string) :
  (String.length (rstrip s) <= String.length s)%nat.
Proof.
  induction s as [|c s IH]; simpl; [lia|].
  destruct (rstrip s); [destruct (isspace c)|]; simpl in *; lia.
Qed.

Lemma strip_length (s : string) :
  (String.length (strip s) <= String.length s)%nat.
Proof.
  unfold strip. pose proof (rstrip_length (lstrip s)).
  pose proof (lstrip_length s). lia.
Qed.

Lemma ends_ws_norm (s : string) : ends_ws (norm s) = cut_at_space s.
Proof.
  unfold cut_at_space, norm. rewrite preserve_8char_code_words.
  unfold normalize_words. destruct (strip_clean s) as [Hs He].
  set (t := strip s) in *.
  destruct (isdigit t) eqn:Ed; cbn [negb andb].
  - pose proof (isdigit_all_digits t Ed) as Hall.
    destruct (Nat.ltb_spec 8 (String.length t)); [exact He|].
    apply all_digits_clean. now rewrite all_digits_app, all_digits_fill.
  - destruct (Nat.ltb_spec (String.length t) 8) as [Hlt | Hge].
    + replace (8 <? String.length t)%nat with false
        by (symmetry; apply Nat.ltb_ge; lia).
      cbn [andb].
      assert (Hk : exists k, (8 - String.length t)%nat = S k)
        by (exists (7 - String.length t)%nat; lia).
      destruct Hk as [k ->]. apply ends_ws_app_zero.
    + destruct (Nat.ltb_spec 8 (String.length t)) as [Hgt | Hle];
        cbn [andb]; [reflexivity|].
      rewrite prefix_all by lia. exact He.
Qed.

Lemma cut_at_space_norm (s : string) : cut_at_space (norm s) = false.
Proof.
  unfold cut_at_space.
  destruct (isdigit (strip (norm s))) eqn:Ed; [reflexivity|].
  cbn [negb andb].
  replace (8 <? String.length (strip (norm s)))%nat with false; [reflexivity|].
  symmetry. apply Nat.ltb_ge.
  pose proof (strip_length (norm s)) as Hl.
  unfold norm in *. rewrite preserve_8char_code_words in *.
  unfold normalize_words in *.
  destruct (isdigit (strip s)) eqn:Es.
  - pose proof (isdigit_all_digits _ Es) as Hall.
    assert (Hr : all_digits
                   (if (8 <? String.length (strip s))%nat then strip s
                    else fill (8 - String.length (strip s)) "0" ++ strip s)
                 = true).
    { destruct (8 <? String.length (strip s))%nat; [exact Hall|].
      now rewrite all_digits_app, all_digits_fill. }
    destruct (all_digits_clean _ Hr) as [R1 R2].
    rewrite (strip_id _ R1 R2) in Ed.
    assert (Hd : isdigit (if (8 <? String.length (strip s))%nat then strip s
                          else fill (8 - String.length (strip s)) "0" ++ strip s)
                 = true).
    { destruct (Nat.ltb_spec 8 (String.length (strip s))); [exact Es|].
      destruct (fill (8 - String.length (strip s)) "0" ++ strip s) eqn:E;
        [|exact Hr].
      destruct (strip s); [discriminate|].
      destruct (fill _ _); discriminate. }
    congruence.
  - destruct (Nat.ltb_spec (String.length (strip s)) 8) as [Hlt | Hge].
    + rewrite str_length_app, fill_length in Hl. lia.
    + rewrite prefix_length in Hl by assumption. exact Hl.
Qed.

Lemma norm_norm_ends (s : string) : ends_ws (norm (norm s)) = false.
Proof. rewrite ends_ws_norm. apply cut_at_space_norm. Qed.

Lemma process_fg_formulas_codes (new_fg : list (cell * cell * option Q))
    (row : formula_row) :
  In row (process_fg_formulas new_fg) ->
  exists f r, fg_code row = norm f /\ rm_code row = norm r.
Proof.
  unfold process_fg_formulas. rewrite filter_In, in_map_iff.
  intros [([[fg rm] qty] & <- & _) Hk]. cbn [fg_code rm_code] in *.
  destruct fg as [|f]; [discriminate Hk|].
  destruct rm as [|r]; [cbn in Hk; rewrite andb_false_r in Hk; discriminate|].
  exists f, r. split; reflexivity.
Qed.

Lemma run_untouched (rm_stock : list stock_row)
    (formulas : list formula_row) (order : list string)
    (ecs : gmap string Q) (dp : nat) (st : run_state) (rm : string) :
  production_analysis rm_stock formulas order ecs dp = Some st ->
  (forall row, In row formulas -> In (fg_code row) order ->
               norm (rm_code row) <> rm) ->
  allocated_stock st !! rm = stock_dict rm_stock dp !! rm.
Proof.
  intros H Hrm. unfold production_analysis in H.
  refine (allocation_loop_invariant_in
            (fun s => allocated_stock s !! rm = stock_dict rm_stock dp !! rm)
            _ _ _ _ order _ _ st _ H); [|reflexivity].
  intros s f s' Hf HP Hs.
  apply process_fg_inv in Hs as [[_ ->] | [_ (l & _ & _ & _ & ->)]];
    [exact HP|].
  destruct (_ && _)%bool; [|exact HP].
  rewrite deplete_lookup_other; [exact HP|].
  unfold formula_rms. rewrite in_map_iff. intros (row & Hrow & Hin).
  apply formula_of_in in Hin as [Hin Hfg].
  apply (Hrm row Hin); [now rewrite Hfg | exact Hrow].
Qed.

(** X3. The loop looks RM codes up after normalising the stored
    formula code once more, and such a key never ends in white space.  A
    stock code that ends in white space (the raw code was cut at a space,
    like ["ABCDEFG HI"] stored as ["ABCDEFG "]) is therefore never read nor
    depleted by a run over uploaded formulas: it ends every run with its
    initial quantity. *)
Theorem stock_code_cut_at_space_is_never_used
    (df : list (cell * option Q)) (new_fg : list (cell * cell * option Q))
    (order : list string) (ecs : gmap string Q) (dp : nat) (st : run_state) :
  production_analysis (process_rm_stock df) (process_fg_formulas new_fg)
                      order ecs dp = Some st ->
  (forall s, ends_ws (norm s) = cut_at_space s) /\
  (forall row, In row (process_fg_formulas new_fg) ->
               ends_ws (norm (rm_code row)) = false) /\
  (forall k, ends_ws k = true ->
     allocated_stock st !! k = stock_dict (process_rm_stock df) dp !! k).
Proof.
  intros Hst.
  assert (Hrows : forall row, In row (process_fg_formulas new_fg) ->
                              ends_ws (norm (rm_code row)) = false).
  { intros row Hrow.
    destruct (process_fg_formulas_codes _ _ Hrow) as (f & r & _ & ->).
    apply norm_norm_ends. }
  split; [exact ends_ws_norm|]. split; [exact Hrows|].
  intros k Hk. apply (run_untouched _ _ _ _ _ _ _ Hst).
  intros row Hrow _ Heq. specialize (Hrows row Hrow).
  rewrite Heq in Hrows. congruence.
Qed.

Lemma stock_code_cut_at_space_is_never_used_witness :
  exists st,
    production_analysis
      (process_rm_stock [(Str "ABCDEFG HI", Some 100)])
      (process_fg_formulas [(Str "FG1", Str "ABCDEFG HI", Some 30)])
      ["FG100000"] ∅ 3 = Some st /\
    allocated_stock st !! "ABCDEFG " = Some 100 /\
    summary st = [ ("FG100000", 0, 0, 0, "❌ Shortage") ]%Z.
Proof.
  destruct (run_is_Some
              (process_rm_stock [(Str "ABCDEFG HI", Some 100)])
              (process_fg_formulas [(Str "FG1", Str "ABCDEFG HI", Some 30)])
              ["FG100000"] ∅ 3) as [st Hst].
  exists st. split; [exact Hst|]. split.
  - rewrite (proj2 (proj2 (stock_code_cut_at_space_is_never_used
                             _ _ _ _ _ _ Hst)) "ABCDEFG " eq_refl).
    vm_compute. reflexivity.
  - revert Hst. vm_compute. intros [= <-]. reflexivity.
Defined.

(** ** Capacities *)

Lemma max_batches_words_mono (a b : gmap string Q) (dp : nat)
    (row : formula_row) :
  pool_le a b ->
  (max_batches_words a dp row <= max_batches_words b dp row)%Z.
Proof.
  intros Hle. specialize (Hle (norm (rm_code row))).
  pose proof (max_batches_words_nonneg b dp row) as H0.
  unfold max_batches_words in *.
  destruct (Qltb 0 (py_round (quantity row) dp)) eqn:E1; cbn [andb] in *;
    [|lia].
  destruct (Qltb 0 (get0 a (norm (rm_code row)))) eqn:E2; [|exact H0].
  apply Qltb_true in E1, E2.
  replace (Qltb 0 (get0 b (norm (rm_code row)))) with true
    by (symmetry; apply Qltb_true; lra).
  now apply floor_div_mono.
Qed.

(** X18. Capacities are never negative and never shrink with more
    stock: every result has batches and max batches of at least 0, no more
    missing RMs than its formula has rows, and the max capacity that the
    analysis of a formula works out from a larger initial stock (entry by
    entry) is at least the one it works out from a smaller one, whatever
    the allocated pools and expected capacities. *)
Theorem capacities_are_sound (rm_stock : list stock_row)
    (formulas : list formula_row) (order : list string)
    (ecs : gmap string Q) (dp : nat) (st : run_state) :
  production_analysis rm_stock formulas order ecs dp = Some st ->
  (forall l, In l (iterations st) ->
     (0 <= actual_batches l)%Z /\ (0 <= max_possible_batches l)%Z /\
     (length (missing_rms l)
      <= length (formula_of formulas (fg l)))%nat) /\
  (forall a b alloc_a alloc_b ec_a ec_b f formula la lb,
     pool_le a b ->
     analyse_fg a alloc_a dp ec_a f formula = Some la ->
     analyse_fg b alloc_b dp ec_b f formula = Some lb ->
     (max_capacity la <= max_capacity lb)%Z).
Proof.
  intros Hst. split.
  - intros l Hl.
    destruct (run_analysed _ _ _ _ _ _ _ Hst Hl) as (allocated & _ & Hne & Ha).
    destruct (analyse_fg_inv _ _ _ _ _ _ _ Ha)
      as (rows & Hrows & _ & _ & Hmb & _ & Hposs & Hmiss & _ & Hact & _).
    assert (Hrow : Forall (fun r => (0 <= rr_batches r)%Z /\
                                    (length (rr_missing r) <= 1)%nat) rows /\
                   length rows = length (formula_of formulas (fg l))).
    { unfold actual_rows in Hrows.
      assert (G : forall (f : formula_row -> option row_result) fs rs,
                 (forall row r, f row = Some r ->
                    (0 <= rr_batches r)%Z /\ (length (rr_missing r) <= 1)%nat) ->
                 mapM f fs = Some rs ->
                 Forall (fun r => (0 <= rr_batches r)%Z /\
                                  (length (rr_missing r) <= 1)%nat) rs /\
                 length rs = length fs).
      { clear. intros f fs rs Hf Hm. apply mapM_Some in Hm.
        induction Hm as [|row r fs rs Hrow _ [IH1 IH2]]; simpl.
        - split; [constructor | reflexivity].
        - split; [constructor; [exact (Hf _ _ Hrow) | exact IH1] | lia]. }
      destruct (Qltb 0 (get0 ecs (fg l))); apply (G _ _ _ ) in Hrows;
        try exact Hrows.
      - intros row r Hr.
        pose proof (target_batches_ge1 (get0 ecs (fg l))) as Ht.
        unfold expected_row in Hr.
        destruct (Qleb (_ * _) 0) eqn:E1;
          [injection Hr as <-; simpl; split; lia|].
        destruct (Qleb (get0 _ _) 0) eqn:E2;
          [injection Hr as <-; simpl; split; lia|].
        destruct (Qleb (_ * _) (get0 _ _)) eqn:E3;
          [injection Hr as <-; simpl; split; lia|].
        apply Qleb_false in E1, E2.
        apply total_required_pos in E1; [|assumption].
        rewrite py_floordiv_pos in Hr by assumption.
        pose proof (floor_div_nonneg _ _ E1 (Qlt_le_weak _ _ E2)) as H0.
        set (m := Qfloor _) in *. cbn [mbind option_bind] in Hr.
        destruct (m <? _)%Z; injection Hr as <-; simpl; split; lia.
      - intros row r Hr. unfold auto_row in Hr.
        destruct (Qleb (py_round _ _) 0) eqn:E1;
          [injection Hr as <-; simpl; split; lia|].
        destruct (Qleb (get0 _ _) 0) eqn:E2;
          [injection Hr as <-; simpl; split; lia|].
        apply Qleb_false in E1, E2.
        rewrite py_floordiv_pos in Hr by assumption.
        pose proof (floor_div_nonneg _ _ E1 (Qlt_le_weak _ _ E2)) as H0.
        set (m := Qfloor _) in *. cbn [mbind option_bind] in Hr.
        destruct (m =? 0)%Z; injection Hr as <-; simpl; split; lia. }
    destruct Hrow as [Hall Hlen]. rewrite List.Forall_forall in Hall.
    assert (Hrne : map rr_batches rows <> []).
    { destruct rows; [|discriminate]. simpl in Hlen.
      destruct (formula_of formulas (fg l)); [congruence | discriminate]. }
    assert (H0 : (0 <= list_min0 (map rr_batches rows))%Z).
    { apply list_min0_ge; [assumption|]. intros x Hx.
      apply in_map_iff in Hx as (r & <- & Hr). now apply Hall. }
    split; [|split].
    + rewrite Hact, Hposs.
      pose proof (target_batches_ge1 (get0 ecs (fg l))).
      destruct (Qltb 0 _); lia.
    + rewrite Hmb.
      assert (Hmne : map (max_batches_words (stock_dict rm_stock dp) dp)
                         (formula_of formulas (fg l)) <> [])
        by (destruct (formula_of formulas (fg l)); [congruence | discriminate]).
      apply list_min0_ge; [assumption|]. intros x Hx.
      apply in_map_iff in Hx as (r & <- & _). apply max_batches_words_nonneg.
    + rewrite Hmiss, <- Hlen. clear -Hall.
      induction rows as [|r rows IH]; simpl; [lia|].
      rewrite length_app.
      pose proof (Hall r (or_introl eq_refl)) as [_ Hr].
      assert (IH' : (length (concat (map rr_missing rows)) <= length rows)%nat)
        by (apply IH; intros x Hx; apply Hall; now right).
      lia.
  - intros a b alloc_a alloc_b ec_a ec_b f formula la lb Hle Ha Hb.
    destruct (analyse_fg_inv _ _ _ _ _ _ _ Ha)
      as (_ & _ & _ & _ & _ & -> & _).
    destruct (analyse_fg_inv _ _ _ _ _ _ _ Hb)
      as (_ & _ & _ & _ & _ & -> & _).
    clear Ha Hb. unfold max_capacity_words.
    assert (H : (list_min0 (map (max_batches_words a dp) formula)
                 <= list_min0 (map (max_batches_words b dp) formula))%Z).
    { apply list_min0_mono. induction formula as [|row formula IH]; simpl;
        constructor; [now apply max_batches_words_mono | exact IH]. }
    lia.
Qed.

Lemma capacities_are_sound_witness :
  exists st,
    production_analysis fifo_stock fifo_formulas
                        ["FG100000"; "FG200000"] ∅ 3 = Some st /\
    forall l, In l (iterations st) -> (0 <= actual_batches l)%Z.
Proof.
  destruct (run_is_Some fifo_stock fifo_formulas
              ["FG100000"; "FG200000"] ∅ 3) as [st Hst].
  exists st. split; [exact Hst|].
  intros l Hl.
  exact (proj1 (proj1 (capacities_are_sound _ _ _ _ _ _ Hst) l Hl)).
Defined.
